(** * convert.py: batch conversion of Markdown files to notebooks

    A shallow embedding of [src/convert.py] and the properties its
    specification states about it.

    The script is nine lines of Python over the standard library:
    [os.walk], [str.endswith], [os.path.join], [os.path.splitext],
    [print], [open(..., "w")] used as a context manager, and
    [subprocess.run].  The library functions are embedded with their
    CPython (POSIX) behaviour; the script itself is embedded line by line
    in a small state-and-exception monad over a model of the file system,
    the console and the process table. *)

From Stdlib Require Import ZArith Ascii.
From Stdlib.Strings Require Import Byte.
From stdpp Require Import gmap strings list fin_maps.

Local Open Scope Z_scope.

(** ** Python [str] *)

Module Str.

(** [len(s)] *)
Definition len (s : string) : Z := Z.of_nat (String.length s).

(** Index normalisation of a slice bound: a negative bound counts from
    the end, and every bound is clamped to [0, len(s)]. *)
Definition clamp (s : string) (i : Z) : Z :=
  if i <? 0 then Z.max 0 (i + len s) else Z.min i (len s).

(** [s[lo:hi]] *)
Definition slice (s : string) (lo hi : Z) : string :=
  let lo' := clamp s lo in
  let hi' := clamp s hi in
  String.substring (Z.to_nat lo') (Z.to_nat (hi' - lo')) s.

(** [s[:hi]] and [s[lo:]] *)
Definition slice_to (s : string) (hi : Z) : string := slice s 0 hi.
Definition slice_from (s : string) (lo : Z) : string := slice s lo (len s).

(** [s.rfind(c)] for a one-character [c]: the highest index at which
    [c] occurs, or [-1]. *)
Fixpoint rfind (s : string) (c : ascii) : Z :=
  match s with
  | EmptyString => -1
  | String a s' =>
      let r := rfind s' c in
      if 0 <=? r then r + 1
      else if Ascii.eqb a c then 0 else -1
  end.

(** [c in s] for a one-character [c] *)
Fixpoint contains (s : string) (c : ascii) : bool :=
  match s with
  | EmptyString => false
  | String a s' => Ascii.eqb a c || contains s' c
  end.

(** [s.startswith(t)] and [s.endswith(t)] *)
Definition startswith (s t : string) : bool := String.prefix t s.

Definition endswith (s t : string) : bool :=
  (String.length t <=? String.length s)%nat &&
  String.eqb
    (String.substring (String.length s - String.length t) (String.length t) s)
    t.

End Str.

(** ** [os.path] (posixpath) *)

Module Path.

Definition sep : ascii := "/"%char.
Definition extsep : ascii := "."%char.

(** [os.path.join(a, b)] with two arguments *)
Definition join (a b : string) : string :=
  if Str.startswith b (String sep "") || String.eqb a "" then b
  else if Str.endswith a (String sep "") then a +:+ b
  else a +:+ String sep "" +:+ b.

(** The [while filenameIndex < dotIndex] loop of [genericpath._splitext]:
    [true] when it leaves through its [return] (a character other than
    [extsep] stands before the last dot), [false] when it runs out.
    [filenameIndex] goes up by one in every round, so the loop makes at
    most [dotIndex - filenameIndex] rounds: that is the [fuel] it is
    started with. *)
Fixpoint skip_dots (p : string) (dotIndex : Z) (fuel : nat)
    (filenameIndex : Z) : bool :=
  match fuel with
  | O => false
  | S fuel' =>
      if filenameIndex <? dotIndex then
        if negb (String.eqb (Str.slice p filenameIndex (filenameIndex + 1))
                            (String extsep ""))
        then true
        else skip_dots p dotIndex fuel' (filenameIndex + 1)
      else false
  end.

(** [genericpath._splitext(p, sep, altsep, extsep)] *)
Definition _splitext (p : string) (sep : ascii) (altsep : option ascii)
    (extsep : ascii) : string * string :=
  let sepIndex := Str.rfind p sep in
  let sepIndex :=
    match altsep with
    | Some a => Z.max sepIndex (Str.rfind p a)
    | None => sepIndex
    end in
  let dotIndex := Str.rfind p extsep in
  if (sepIndex <? dotIndex)
     && skip_dots p dotIndex (Z.to_nat (dotIndex - (sepIndex + 1)))
                  (sepIndex + 1)
  then (Str.slice_to p dotIndex, Str.slice_from p dotIndex)
  else (p, Str.slice_to p 0).

(** [os.path.splitext(p)] *)
Definition splitext (p : string) : string * string :=
  _splitext p sep None extsep.

End Path.

(** ** The file system

    The directory tree found at the folder that is walked: regular files
    with their content, directories with their entries in the order
    [os.scandir] lists them, and directories that [os.walk] does not
    enter.  A directory is [Closed] when [os.scandir] fails on it (it is
    not readable, its path is too long), and, as an entry of another
    directory, also when it is a symbolic link to a directory: with
    [followlinks=False] such an entry is named in [dirs] and passed
    over.  (At the folder path itself a symbolic link is followed: the
    tree is what the folder path leads to.)  What a closed directory holds
    is there, and the walk does not see it. *)

#[warnings="-register-all"]
Inductive node : Type :=
  | File (data : list byte)
  | Dir (entries : list (string * node))
  | Closed (entries : list (string * node)).

(** What a path names, as [open] and the child process see the disk.
    Every path names an object of its own: links to files, under which
    two paths name one object, are not part of the model. *)
Inductive obj : Type :=
  | RegFile (data : list byte)
  | Directory.

Definition is_dir (n : node) : bool :=
  match n with Dir _ | Closed _ => true | File _ => false end.

(** The names [os.walk] sorts into [dirs] and into [nondirs]. *)
Definition dir_names (entries : list (string * node)) : list string :=
  (filter (fun e => is_dir (snd e) = true) entries).*1.

Definition nondir_names (entries : list (string * node)) : list string :=
  (filter (fun e => is_dir (snd e) = false) entries).*1.

(** [os.walk(top)], top-down, [onerror=None], [followlinks=False]: the
    triples [(root, dirs, files)] it yields.  A directory is listed in full
    before its triple is yielded, and the sub-directories are walked
    afterwards, in the order of [dirs], under [join(top, dirname)].  When
    [scandir(top)] fails, [os.walk] swallows the error and yields nothing:
    that is so for a [top] that is not a directory, for a closed
    directory, and for the empty path, which names nothing. *)
Fixpoint os_walk (top : string) (t : node)
    : list (string * list string * list string) :=
  match t with
  | File _ => []
  | Closed _ => []
  | Dir entries =>
      if String.eqb top "" then []
      else
        (top, dir_names entries, nondir_names entries) ::
        (fix walk_dirs (es : list (string * node)) :=
           match es with
           | [] => []
           | (name, child) :: es' =>
               (if is_dir child then os_walk (Path.join top name) child
                else [])
               ++ walk_dirs es'
           end) entries
  end.

(** The disk as a map from path to object: every node of the tree under the
    path string that names it from [top], as far as listing directories
    shows it.  A closed directory is there as a directory; what it holds
    is not listed. *)
Fixpoint listing (top : string) (t : node) : list (string * obj) :=
  match t with
  | File data => [(top, RegFile data)]
  | Closed _ => [(top, Directory)]
  | Dir entries =>
      (top, Directory) ::
      (fix list_entries (es : list (string * node)) :=
         match es with
         | [] => []
         | (name, child) :: es' =>
             listing (Path.join top name) child ++ list_entries es'
         end) entries
  end.

Definition disk (top : string) (t : node) : gmap string obj :=
  list_to_map (listing top t).

(** ** The world the script runs in *)

(** System-level events, in the order they happen. *)
Inductive event : Type :=
  | Print (line : string)          (* a line on standard output *)
  | Open (path : string)           (* [open(path, "w")] succeeded *)
  | Spawn (argv : list string)     (* a child process was started *)
  | Wait (argv : list string)      (* the child has terminated *)
  | Close (path : string).         (* the file object was closed *)

Record world : Type := World {
  fs : gmap string obj;            (* the disk *)
  opened : list string;            (* file objects that are open *)
  log : list event                 (* what has happened so far *)
}.

(** What a terminated child leaves behind. *)
Record child : Type := Child {
  child_stdout : list byte;
  child_stderr : list byte;
  child_status : Z
}.

(** [subprocess.CompletedProcess] *)
Record CompletedProcess : Type := Completed {
  args : list string;
  returncode : Z
}.

(** The exceptions of the script, all of them [OSError]s: its named
    subclasses with the file name they carry, and any other by its error
    number. *)
Inductive exn : Type :=
  | IsADirectoryError (path : string)
  | PermissionError (path : string)
  | FileNotFoundError (program : string)
  | OSError (errno : Z) (filename : string).

(** The operating system, as far as the script depends on it. *)
Class Platform : Type := {
  (** paths on which [open(path, "w")] is refused ([PermissionError]);
      the refusal goes by the path and stays as it is during a run *)
  denied : string -> bool;
  (** running [argv] to completion on a given disk; [None] when the
      child cannot be started *)
  execvp : list string -> gmap string obj -> option child;
  (** the [OSError] that is raised when the child cannot be started:
      [FileNotFoundError] when the program is not found,
      [PermissionError] when it is there and may not be executed, and so
      on *)
  start_error : list string -> exn
}.

Inductive outcome (A : Type) : Type :=
  | Return (a : A)
  | Raise (e : exn).
Arguments Return {A} a.
Arguments Raise {A} e.

(** Computations: the world is threaded through, and an exception leaves
    the world as it was when it was raised. *)
Definition M (A : Type) : Type := world -> outcome A * world.

#[global] Instance M_ret : MRet M := fun A a w => (Return a, w).

#[global] Instance M_bind : MBind M := fun A B k m w =>
  match m w with
  | (Return a, w') => k a w'
  | (Raise e, w') => (Raise e, w')
  end.

(** [for x in l: body(x)] *)
Fixpoint for_each {A} (l : list A) (body : A -> M unit) : M unit :=
  match l with
  | [] => mret tt
  | x :: l' => body x ;; for_each l' body
  end.

(** [print(line)] *)
Definition print (line : string) : M unit :=
  fun w => (Return tt, World (fs w) (opened w) (log w ++ [Print line])).

Fixpoint remove_first (p : string) (l : list string) : list string :=
  match l with
  | [] => []
  | q :: l' => if String.eqb p q then l' else q :: remove_first p l'
  end.

Section Script.

Context `{OS : Platform}.

(** [open(path, "w")]: the file is created, or truncated when it is
    there; the file object is identified by its path. *)
Definition open_w (path : string) : M string :=
  fun w =>
    match fs w !! path with
    | Some Directory => (Raise (IsADirectoryError path), w)
    | _ =>
        if denied path then (Raise (PermissionError path), w)
        else (Return path,
              World (<[path := RegFile []]> (fs w))
                    (path :: opened w)
                    (log w ++ [Open path]))
    end.

(** [outfile.close()] *)
Definition close (outfile : string) : M unit :=
  fun w =>
    (Return tt,
     World (fs w) (remove_first outfile (opened w))
           (log w ++ [Close outfile])).

(** [with open(path, "w") as outfile: body(outfile)]: the file object is
    closed when the block is left, also by an exception, which is then
    raised again. *)
Definition with_open_w {A} (path : string) (body : string -> M A) : M A :=
  fun w =>
    match open_w path w with
    | (Raise e, w') => (Raise e, w')
    | (Return outfile, w') =>
        let '(r, w'') := body outfile w' in
        (r, snd (close outfile w''))
    end.

(** [subprocess.run(args, stdout=outfile)]: the child writes its
    standard output to the file, the parent waits for it, and the result
    carries the exit status; [check] is off, so no status raises.  A child
    that cannot be started raises the error of the failed start. *)
Definition subprocess_run (argv : list string) (outfile : string)
    : M CompletedProcess :=
  fun w =>
    match execvp argv (fs w) with
    | None => (Raise (start_error argv), w)
    | Some c =>
        (Return (Completed argv (child_status c)),
         World (<[outfile := RegFile (child_stdout c)]> (fs w))
               (opened w)
               (log w ++ [Spawn argv; Wait argv]))
    end.

(** [os.path.splitext(md_path)[0] + ".ipynb"] *)
Definition ipynb_of (md_path : string) : string :=
  fst (Path.splitext md_path) +:+ ".ipynb".

(** The body of the inner loop of [convert_md_to_ipynb]. *)
Definition convert_file (root file : string) : M unit :=
  if Str.endswith file ".md" then
    let md_path := Path.join root file in
    let ipynb_path := ipynb_of md_path in
    print ("Converting: " +:+ md_path +:+ " -> " +:+ ipynb_path) ;;
    with_open_w ipynb_path (fun outfile =>
      subprocess_run ["notedown"; md_path] outfile) ;;
    mret tt
  else mret tt.

(** [convert_md_to_ipynb(folder_path)], [tree] being the directory tree
    that is at [folder_path] when the function is called.  The files the
    loop body creates are regular files in the directory whose triple is
    being processed, which [os.walk] has listed already, so that the walk
    yields the triples of that tree. *)
Definition convert_md_to_ipynb (folder_path : string) (tree : node)
    : M unit :=
  for_each (os_walk folder_path tree) (fun '(root, _, files) =>
    for_each files (fun file => convert_file root file)).

(** The module's last line: [convert_md_to_ipynb(".")]. *)
Definition main (tree : node) : M unit := convert_md_to_ipynb "." tree.

End Script.

(** The world in which a run on [tree] starts: the disk holds the tree,
    no file object is open, nothing has happened. *)
Definition boot (folder_path : string) (tree : node) : world :=
  World (disk folder_path tree) [] [].

(** ** Notions the properties are stated with *)

(** A name as a directory entry can have it: not empty, no separator. *)
Definition valid_name (name : string) : bool :=
  negb (String.eqb name "") && negb (Str.contains name Path.sep).

(** A well-formed tree: valid entry names, no name twice in a directory,
    in the directories the walk lists. *)
Fixpoint wf (t : node) : bool :=
  match t with
  | File _ => true
  | Closed _ => true
  | Dir entries =>
      forallb valid_name entries.*1
      && bool_decide (NoDup entries.*1)
      && (fix wf_entries (es : list (string * node)) :=
            match es with
            | [] => true
            | (_, child) :: es' => wf child && wf_entries es'
            end) entries
  end.

(** [file_at t dirs name]: going down from the directory [t] through the
    sub-directories [dirs], each of them a directory the walk lists, leads
    to a directory the walk lists, with a regular file [name]. *)
Inductive file_at : node -> list string -> string -> Prop :=
  | file_here entries name data :
      (name, File data) ∈ entries ->
      file_at (Dir entries) [] name
  | file_below entries d sub dirs name :
      (d, Dir sub) ∈ entries ->
      file_at (Dir sub) dirs name ->
      file_at (Dir entries) (d :: dirs) name.



(** What [os.path.join] puts in front of a name when it joins it to the
    directory path [a]. *)
Definition dir_prefix (a : string) : string :=
  if String.eqb a "" then ""
  else if Str.endswith a "/" then a
  else a +:+ "/".

(** A directory prefix is empty or ends with the separator. *)
Definition is_prefix (r : string) : Prop :=
  r = "" \/ exists r0, r = r0 +:+ "/".

(** A directory path that [os.path.join] extends with a separator. *)
Definition clean (r : string) : Prop :=
  r <> "" /\ Str.endswith r "/" = false.

(** [p] is the path [r] or a path below it. *)
Definition below (r p : string) : Prop :=
  p = r \/ exists rest, p = r +:+ "/" +:+ rest.

(** The path string under which the walk reaches a directory. *)
Definition dir_path (top : string) (dirs : list string) : string :=
  fold_left Path.join dirs top.

(** The (root, file) pairs the inner loop body is run on, in order. *)
Definition visited (top : string) (t : node) : list (string * string) :=
  '(root, _, files) ← os_walk top t; pair root <$> files.

Definition is_candidate (rf : string * string) : bool :=
  Str.endswith rf.2 ".md".

Definition candidates (top : string) (t : node) : list (string * string) :=
  filter (fun rf => is_candidate rf = true) (visited top t).

Definition md_path_of (rf : string * string) : string := Path.join rf.1 rf.2.
Definition dest_of (rf : string * string) : string := ipynb_of (md_path_of rf).
Definition argv_of (rf : string * string) : list string :=
  ["notedown"; md_path_of rf].
Definition line_of (rf : string * string) : string :=
  "Converting: " +:+ md_path_of rf +:+ " -> " +:+ dest_of rf.

(** Projections of a log. *)
Definition spawned (evs : list event) : list (list string) :=
  omap (fun e => match e with Spawn argv => Some argv | _ => None end) evs.

Definition opens (evs : list event) : list string :=
  omap (fun e => match e with Open p => Some p | _ => None end) evs.

Definition printed (evs : list event) : list string :=
  omap (fun e => match e with Print l => Some l | _ => None end) evs.

(** Whether [open(path, "w")] goes through on a disk. *)
Definition can_open `{OS : Platform} (d : gmap string obj) (path : string)
    : bool :=
  match d !! path with
  | Some Directory => false
  | _ => negb (denied path)
  end.

Definition open_error (d : gmap string obj) (path : string) : exn :=
  match d !! path with
  | Some Directory => IsADirectoryError path
  | _ => PermissionError path
  end.

(** What one candidate leaves in the log when its conversion goes
    through. *)
Definition block (rf : string * string) : list event :=
  [Print (line_of rf); Open (dest_of rf); Spawn (argv_of rf);
   Wait (argv_of rf); Close (dest_of rf)].

(** What a candidate leaves in the log when its conversion is cut short:
    by [open], or by the start of the child. *)
Definition block_no_open (rf : string * string) : list event :=
  [Print (line_of rf)].

Definition block_no_child (rf : string * string) : list event :=
  [Print (line_of rf); Open (dest_of rf); Close (dest_of rf)].

(** The loop body on a candidate, with its three ways out spelled out:
    the destination cannot be opened; the converter cannot be started; the
    conversion goes through. *)
Definition convert_step `{OS : Platform} (rf : string * string) (w : world)
    : outcome unit * world :=
  if can_open (fs w) (dest_of rf) then
    match execvp (argv_of rf) (<[dest_of rf := RegFile []]> (fs w)) with
    | Some c =>
        (Return tt,
         World (<[dest_of rf := RegFile (child_stdout c)]> (fs w))
               (opened w) (log w ++ block rf))
    | None =>
        (Raise (start_error (argv_of rf)),
         World (<[dest_of rf := RegFile []]> (fs w)) (opened w)
               (log w ++ block_no_child rf))
    end
  else
    (Raise (open_error (fs w) (dest_of rf)),
     World (fs w) (opened w) (log w ++ block_no_open rf)).

(** The loop body run on a list of (root, file) pairs. *)
Definition convert_all `{OS : Platform} (l : list (string * string))
    : M unit :=
  for_each l (fun rf => convert_file rf.1 rf.2).

(** How a run can change the disk: a path keeps what it names, or a path
    that named no directory now names a regular file. *)
Definition evolves (d d' : gmap string obj) : Prop :=
  forall p,
    d' !! p = d !! p
    \/ (d !! p <> Some Directory
        /\ exists data, d' !! p = Some (RegFile data)).

(** Sequential processing, as an automaton over the log: nothing is open
    between candidates; a destination is opened, a child is started and
    waited for, and the destination is closed before anything else.  A
    destination that is closed without a child having been started and
    waited for ends the log: nothing may follow. *)
Inductive phase : Type :=
  | Idle
  | Opened (dest : string)
  | Running (dest : string) (argv : list string)
  | Finished (dest : string)
  | Aborted.

Definition advance (ph : phase) (e : event) : option phase :=
  match ph, e with
  | Idle, Print _ => Some Idle
  | Idle, Open d => Some (Opened d)
  | Opened d, Spawn argv => Some (Running d argv)
  | Running d argv, Wait argv' =>
      if decide (argv = argv') then Some (Finished d) else None
  | Finished d, Close d' =>
      if decide (d = d') then Some Idle else None
  | Opened d, Close d' =>
      if decide (d = d') then Some Aborted else None
  | _, _ => None
  end.

Fixpoint sequential (ph : phase) (evs : list event) : option phase :=
  match evs with
  | [] => Some ph
  | e :: evs' =>
      match advance ph e with
      | Some ph' => sequential ph' evs'
      | None => None
      end
  end.

(** The output path as the specification words it: the substring from the
    last [.] of the file name to the end is stripped, if there is one, and
    [.ipynb] is appended. *)
Definition spec_output_path (md_path : string) : string :=
  let dot := Str.rfind md_path Path.extsep in
  (if Str.rfind md_path Path.sep <? dot then Str.slice_to md_path dot
   else md_path) +:+ ".ipynb".

(** Whether a string is made of dots only (the empty string is). *)
Fixpoint all_dots (s : string) : bool :=
  match s with
  | EmptyString => true
  | String a s' => Ascii.eqb a Path.extsep && all_dots s'
  end.

(** ** Scenarios *)

(** A converter that is installed and writes a two-byte notebook. *)
Definition notebook : list byte := [x7b; x7d].

Definition plain_os : Platform := {|
  denied := fun _ => false;
  execvp := fun argv _ =>
    match argv with
    | "notedown" :: _ => Some (Child notebook [] 0)
    | _ => None
    end;
  start_error := fun argv => FileNotFoundError (hd "" argv)
|}.

(** The same, with a converter that fails on every file: it writes
    nothing to standard output, complains on standard error and exits
    with status 1. *)
Definition failing_os : Platform := {|
  denied := fun _ => false;
  execvp := fun argv _ =>
    match argv with
    | "notedown" :: _ => Some (Child [] [x65; x72; x72] 1)
    | _ => None
    end;
  start_error := fun argv => FileNotFoundError (hd "" argv)
|}.

(** A converter that is killed on every file: it writes nothing to
    either stream and ends with status -9. *)
Definition killed_os : Platform := {|
  denied := fun _ => false;
  execvp := fun argv _ =>
    match argv with
    | "notedown" :: _ => Some (Child [] [] (-9))
    | _ => None
    end;
  start_error := fun argv => FileNotFoundError (hd "" argv)
|}.

(** No converter is installed. *)
Definition bare_os : Platform := {|
  denied := fun _ => false;
  execvp := fun _ _ => None;
  start_error := fun argv => FileNotFoundError (hd "" argv)
|}.


(** The same as [plain_os], but [./archive.tar.ipynb] cannot be
    written. *)
Definition guarded_os : Platform := {|
  denied := fun p => String.eqb p "./archive.tar.ipynb";
  execvp := fun argv _ =>
    match argv with
    | "notedown" :: _ => Some (Child notebook [] 0)
    | _ => None
    end;
  start_error := fun argv => FileNotFoundError (hd "" argv)
|}.

(** The scenarios of the specification in one tree. *)
Definition demo_tree : node :=
  Dir [("image.png", File [x89]);
       ("notes.md", File [x23]);
       ("README.MD", File []);
       ("sub", Dir [("dir", Dir [("readme.md", File [x2a])])]);
       ("archive.tar.md", File [])].

(** Scenario A, before and after a run with [plain_os]; the second tree
    lists the new file first. *)
Definition notes_tree : node := Dir [("notes.md", File [x23])].

Definition notes_tree_after : node :=
  Dir [("notes.ipynb", File notebook); ("notes.md", File [x23])].

(** A converter whose standard output is the path it is given. *)
Definition echo_os : Platform := {|
  denied := fun _ => false;
  execvp := fun argv _ =>
    match argv with
    | ["notedown"; path] => Some (Child (String.list_byte_of_string path) [] 0)
    | _ => None
    end;
  start_error := fun argv => FileNotFoundError (hd "" argv)
|}.



(** Scenario C: nothing but an image. *)
Definition image_tree : node := Dir [("image.png", File [x89])].

(** Two candidates with one destination. *)
Definition twins_tree : node :=
  Dir [(".md", File [x61]); (".md.md", File [x62])].

(** A directory that holds nothing but a file named [.md]. *)
Definition dotfile_tree : node := Dir [(".md", File [])].

(** * Facts *)

(** ** Strings *)

Module StrFacts.

(** [simpl] leaves string concatenation alone; these two equations
    compute it. *)
Lemma app_String (a : ascii) (s t : string) :
  String a s +:+ t = String a (s +:+ t).
Proof. reflexivity. Qed.

Lemma app_nil_l (t : string) : "" +:+ t = t.
Proof. reflexivity. Qed.

Ltac str_simpl := simpl; rewrite ?app_String, ?app_nil_l; simpl.
Ltac str_induction s :=
  let a := fresh "a" in
  let IH := fresh "IH" in
  induction s as [|a s IH]; str_simpl.

Lemma app_nil_r (s : string) : s +:+ "" = s.
Proof. str_induction s; [done|]. by rewrite IH. Qed.

Lemma app_assoc (s t u : string) : (s +:+ t) +:+ u = s +:+ t +:+ u.
Proof. str_induction s; [done|]. by rewrite IH. Qed.

Lemma length_app (s t : string) :
  String.length (s +:+ t) = (String.length s + String.length t)%nat.
Proof. str_induction s; [done|]. by rewrite IH. Qed.

Lemma len_app (s t : string) : Str.len (s +:+ t) = Str.len s + Str.len t.
Proof. unfold Str.len. rewrite length_app. lia. Qed.

Lemma len_nonneg (s : string) : 0 <= Str.len s.
Proof. unfold Str.len. lia. Qed.

Lemma app_inv_l (s t u : string) : s +:+ t = s +:+ u -> t = u.
Proof. apply (inj (String.app s)). Qed.

Lemma app_eq_nil (s t : string) : s +:+ t = "" -> s = "" /\ t = "".
Proof. destruct s; str_simpl; [done|discriminate]. Qed.

(** *** [substring] over a concatenation *)

Lemma substring_n_0 (n : nat) (s : string) : String.substring n 0 s = "".
Proof.
  revert n. induction s as [|a s IH]; intros [|n]; simpl; try done.
Qed.

Lemma substring_all (s : string) :
  String.substring 0 (String.length s) s = s.
Proof. induction s as [|a s IH]; simpl; [done|]. by rewrite IH. Qed.

Lemma substring_skip (s t : string) (n m : nat) :
  String.substring (String.length s + n) m (s +:+ t)
  = String.substring n m t.
Proof. str_induction s; [done|]. apply IH. Qed.

Lemma substring_keep (s t : string) (m : nat) :
  String.substring 0 (String.length s + m) (s +:+ t)
  = s +:+ String.substring 0 m t.
Proof. str_induction s; [done|]. by rewrite IH. Qed.

Lemma substring_split (s : string) (n : nat) :
  (n <= String.length s)%nat ->
  s = String.substring 0 n s
      +:+ String.substring n (String.length s - n) s.
Proof.
  revert n. induction s as [|a s IH]; intros [|n] Hn; simpl in *.
  - done.
  - lia.
  - by rewrite substring_all.
  - rewrite app_String, <-IH by lia. done.
Qed.

(** *** [endswith] *)

Lemma endswith_app (s t : string) : Str.endswith (s +:+ t) t = true.
Proof.
  unfold Str.endswith. rewrite length_app.
  apply andb_true_intro; split; [apply Nat.leb_le; lia|].
  replace (String.length s + String.length t - String.length t)%nat
    with (String.length s + 0)%nat by lia.
  rewrite substring_skip, substring_all. apply String.eqb_refl.
Qed.

Lemma endswith_iff (s t : string) :
  Str.endswith s t = true <-> exists pre, s = pre +:+ t.
Proof.
  split.
  - unfold Str.endswith. intros [Hle Heq]%andb_prop.
    apply Nat.leb_le in Hle. apply String.eqb_eq in Heq.
    exists (String.substring 0 (String.length s - String.length t) s).
    pose proof (substring_split s (String.length s - String.length t))
      as Hs.
    replace (String.length s - (String.length s - String.length t))%nat
      with (String.length t) in Hs by lia.
    rewrite Heq in Hs. apply Hs. lia.
  - intros [pre ->]. apply endswith_app.
Qed.

Lemma endswith_false (s t : string) :
  Str.endswith s t = false <-> ~ exists pre, s = pre +:+ t.
Proof.
  rewrite <-endswith_iff. destruct (Str.endswith s t); split; done.
Qed.

(** *** [rfind] and [in] *)

Lemma rfind_ge (s : string) (c : ascii) : -1 <= Str.rfind s c.
Proof.
  induction s as [|a s IH]; simpl; [lia|].
  destruct (0 <=? Str.rfind s c) eqn:E; [lia|].
  destruct (Ascii.eqb a c); lia.
Qed.

Lemma rfind_lt (s : string) (c : ascii) : Str.rfind s c < Str.len s.
Proof.
  unfold Str.len.
  induction s as [|a s IH]; simpl String.length; simpl Str.rfind; [lia|].
  destruct (0 <=? Str.rfind s c) eqn:E; [lia|].
  destruct (Ascii.eqb a c); lia.
Qed.

Lemma rfind_app (s t : string) (c : ascii) :
  Str.rfind (s +:+ t) c
  = if 0 <=? Str.rfind t c then Str.len s + Str.rfind t c
    else Str.rfind s c.
Proof.
  pose proof (rfind_ge t c) as Ht.
  str_induction s.
  - destruct (0 <=? Str.rfind t c) eqn:E; [unfold Str.len; simpl; lia|].
    apply Z.leb_gt in E. lia.
  - rewrite IH. unfold Str.len. simpl String.length.
    destruct (0 <=? Str.rfind t c) eqn:E.
    + apply Z.leb_le in E.
      destruct (0 <=? Z.of_nat (String.length s) + Str.rfind t c) eqn:E';
        [lia|]. apply Z.leb_gt in E'. lia.
    + done.
Qed.

Lemma rfind_absent (s : string) (c : ascii) :
  Str.contains s c = false -> Str.rfind s c = -1.
Proof.
  induction s as [|a s IH]; simpl; [done|].
  intros [Ha Hs]%orb_false_elim. rewrite (IH Hs), Ha. done.
Qed.

Lemma contains_app (s t : string) (c : ascii) :
  Str.contains (s +:+ t) c = Str.contains s c || Str.contains t c.
Proof. str_induction s; [done|]. rewrite IH. by rewrite orb_assoc. Qed.

(** *** Slices *)

Lemma clamp_in (s : string) (i : Z) :
  0 <= i <= Str.len s -> Str.clamp s i = i.
Proof.
  intros H. unfold Str.clamp.
  destruct (i <? 0) eqn:E; [apply Z.ltb_lt in E; lia|lia].
Qed.

Lemma slice_substring (s : string) (lo hi : Z) :
  0 <= lo <= Str.len s -> 0 <= hi <= Str.len s ->
  Str.slice s lo hi = String.substring (Z.to_nat lo) (Z.to_nat (hi - lo)) s.
Proof. intros Hlo Hhi. unfold Str.slice. by rewrite !clamp_in. Qed.

Lemma slice_to_0 (s : string) : Str.slice_to s 0 = "".
Proof.
  unfold Str.slice_to. pose proof (len_nonneg s).
  rewrite slice_substring by lia. apply substring_n_0.
Qed.

Lemma slice_to_app (s t : string) : Str.slice_to (s +:+ t) (Str.len s) = s.
Proof.
  unfold Str.slice_to. pose proof (len_nonneg s). pose proof (len_nonneg t).
  rewrite slice_substring by (rewrite len_app; lia).
  unfold Str.len. rewrite Z.sub_0_r, Nat2Z.id. simpl Z.to_nat.
  rewrite <-(Nat.add_0_r (String.length s)) at 1.
  rewrite substring_keep, substring_n_0. apply app_nil_r.
Qed.

Lemma slice_from_app (s t : string) :
  Str.slice_from (s +:+ t) (Str.len s) = t.
Proof.
  unfold Str.slice_from. pose proof (len_nonneg s). pose proof (len_nonneg t).
  rewrite slice_substring by (rewrite len_app; lia).
  rewrite len_app. unfold Str.len.
  replace (Z.of_nat (String.length s) + Z.of_nat (String.length t)
           - Z.of_nat (String.length s)) with (Z.of_nat (String.length t))
    by lia.
  rewrite !Nat2Z.id.
  rewrite <-(Nat.add_0_r (String.length s)) at 1.
  rewrite substring_skip. apply substring_all.
Qed.

Lemma slice_char (s : string) (a : ascii) (t : string) :
  Str.slice (s +:+ String a t) (Str.len s) (Str.len s + 1) = String a "".
Proof.
  pose proof (len_nonneg s). pose proof (len_nonneg t).
  assert (Str.len (String a t) = 1 + Str.len t) as Hl
    by (unfold Str.len; simpl String.length; lia).
  rewrite slice_substring by (rewrite len_app, Hl; lia).
  replace (Str.len s + 1 - Str.len s) with 1 by lia.
  unfold Str.len. rewrite Nat2Z.id.
  rewrite <-(Nat.add_0_r (String.length s)).
  rewrite substring_skip. simpl. by rewrite substring_n_0.
Qed.

End StrFacts.

(** ** [os.path] *)

Module PathFacts.
Import StrFacts.

Lemma valid_name_nonempty (name : string) :
  valid_name name = true -> name <> "".
Proof.
  unfold valid_name. intros [H _]%andb_prop.
  apply negb_true_iff, String.eqb_neq in H. done.
Qed.

Lemma valid_name_no_sep (name : string) :
  valid_name name = true -> Str.contains name Path.sep = false.
Proof. unfold valid_name. intros [_ H]%andb_prop. by apply negb_true_iff. Qed.

Lemma no_sep_startswith (b : string) :
  Str.contains b Path.sep = false -> Str.startswith b "/" = false.
Proof.
  unfold Str.startswith. destruct b as [|a b]; [done|].
  simpl Str.contains. intros [Ha _]%orb_false_elim.
  change (String.prefix "/" (String a b))
    with (if ascii_dec "/" a then String.prefix "" b else false).
  destruct (ascii_dec "/" a) as [<-|]; [|done].
  by rewrite Ascii.eqb_refl in Ha.
Qed.

(** Joining a name without separator puts the directory prefix in front
    of it. *)
Lemma join_name (a b : string) :
  Str.contains b Path.sep = false ->
  Path.join a b = dir_prefix a +:+ b.
Proof.
  intros Hb. unfold Path.join, dir_prefix, Path.sep.
  rewrite (no_sep_startswith b Hb). simpl orb.
  destruct (String.eqb a ""); [done|].
  destruct (Str.endswith a "/"); [done|].
  by rewrite app_assoc.
Qed.

Lemma dir_prefix_is_prefix (a : string) : is_prefix (dir_prefix a).
Proof.
  unfold dir_prefix, is_prefix.
  destruct (String.eqb a "") eqn:E; [by left|].
  destruct (Str.endswith a "/") eqn:E'; right.
  - by apply endswith_iff in E'.
  - by exists a.
Qed.

Lemma rfind_sep_prefix (r x : string) :
  is_prefix r -> Str.contains x Path.sep = false ->
  Str.rfind (r +:+ x) Path.sep = Str.len r - 1.
Proof.
  intros Hr Hx. rewrite rfind_app, (rfind_absent _ _ Hx). simpl.
  destruct Hr as [->|[r0 ->]]; [done|].
  rewrite rfind_app, len_app. simpl.
  change (Str.len "/") with 1. lia.
Qed.

(** The scan for a character other than the dot, over the part [stem] of
    the path that stands between the last separator and the last dot. *)
Lemma skip_dots_stem (stem pre rest : string) :
  Path.skip_dots (pre +:+ stem +:+ rest) (Str.len pre + Str.len stem)
    (String.length stem) (Str.len pre)
  = negb (all_dots stem).
Proof.
  revert pre. induction stem as [|a stem IH]; intros pre; [done|].
  simpl Path.skip_dots.
  assert (Str.len (String a stem) = 1 + Str.len stem) as Hl
    by (unfold Str.len; simpl String.length; lia).
  pose proof (len_nonneg stem).
  destruct (Str.len pre <? Str.len pre + Str.len (String a stem)) eqn:E;
    [|apply Z.ltb_ge in E; lia].
  rewrite app_String, slice_char. simpl String.eqb. simpl all_dots.
  unfold Path.extsep.
  destruct (Ascii.eqb a ".") eqn:Ea; simpl; [|done].
  apply Ascii.eqb_eq in Ea as ->.
  specialize (IH (pre +:+ ".")).
  rewrite app_assoc, len_app in IH. simpl in IH.
  replace (Str.len pre + Str.len ".") with (Str.len pre + 1) in IH
    by (unfold Str.len; simpl; lia).
  rewrite Hl. rewrite <-IH. f_equal. lia.
Qed.

Lemma rfind_ext (ext : string) :
  Str.contains ext Path.extsep = false ->
  Str.rfind (String Path.extsep ext) Path.extsep = 0.
Proof. intros H. simpl. by rewrite (rfind_absent _ _ H). Qed.

(** [splitext] on a path whose last component is [stem ++ "." ++ ext]. *)
Lemma splitext_ext (r stem ext : string) :
  is_prefix r -> Str.contains stem Path.sep = false ->
  Str.contains ext Path.sep = false ->
  Str.contains ext Path.extsep = false ->
  Path.splitext (r +:+ stem +:+ String Path.extsep ext)
  = if all_dots stem then (r +:+ stem +:+ String Path.extsep ext, "")
    else (r +:+ stem, String Path.extsep ext).
Proof.
  intros Hr Hstem Hes Hed. unfold Path.splitext, Path._splitext.
  assert (Str.rfind (r +:+ stem +:+ String Path.extsep ext) Path.sep
          = Str.len r - 1) as ->.
  { apply rfind_sep_prefix; [done|]. rewrite contains_app, Hstem.
    simpl. done. }
  assert (Str.rfind (r +:+ stem +:+ String Path.extsep ext) Path.extsep
          = Str.len r + Str.len stem) as ->.
  { rewrite <-app_assoc, rfind_app, rfind_ext, len_app by done.
    simpl. lia. }
  pose proof (len_nonneg stem). pose proof (len_nonneg r).
  destruct (Str.len r - 1 <? Str.len r + Str.len stem) eqn:E;
    [|apply Z.ltb_ge in E; lia].
  replace (Str.len r - 1 + 1) with (Str.len r) by lia.
  replace (Z.to_nat (Str.len r + Str.len stem - Str.len r))
    with (String.length stem) by (unfold Str.len; lia).
  rewrite skip_dots_stem. simpl andb.
  destruct (all_dots stem); simpl.
  - by rewrite slice_to_0.
  - rewrite <-len_app, <-app_assoc.
    by rewrite slice_to_app, slice_from_app.
Qed.

Lemma splitext_md (r stem : string) :
  is_prefix r -> Str.contains stem Path.sep = false ->
  Path.splitext (r +:+ stem +:+ ".md")
  = if all_dots stem then (r +:+ stem +:+ ".md", "")
    else (r +:+ stem, ".md").
Proof. intros Hr Hstem. by apply (splitext_ext r stem "md"). Qed.

Lemma all_dots_app (s t : string) :
  all_dots (s +:+ t) = all_dots s && all_dots t.
Proof. str_induction s; [done|]. by rewrite IH, andb_assoc. Qed.

End PathFacts.

(** ** The script *)

Section ScriptFacts.

Context `{OS : Platform}.

Implicit Types (w : world) (rf : string * string).

Lemma bind_run {A B} (m : M A) (k : A -> M B) w :
  (m ≫= k) w
  = match m w with
    | (Return a, w') => k a w'
    | (Raise e, w') => (Raise e, w')
    end.
Proof. reflexivity. Qed.

Lemma for_each_cons {A} (x : A) (l : list A) (body : A -> M unit) w :
  for_each (x :: l) body w
  = match body x w with
    | (Return _, w') => for_each l body w'
    | (Raise e, w') => (Raise e, w')
    end.
Proof. reflexivity. Qed.

Lemma for_each_app {A} (l1 l2 : list A) (body : A -> M unit) w :
  for_each (l1 ++ l2) body w
  = match for_each l1 body w with
    | (Return _, w') => for_each l2 body w'
    | (Raise e, w') => (Raise e, w')
    end.
Proof.
  revert w. induction l1 as [|x l1 IH]; intros w; [done|].
  rewrite <-app_comm_cons, !for_each_cons.
  destruct (body x w) as [[[]|e] w1]; [apply IH|done].
Qed.

Lemma for_each_fmap {A B} (g : A -> B) (l : list A) (body : B -> M unit) w :
  for_each (g <$> l) body w = for_each l (fun x => body (g x)) w.
Proof.
  revert w. induction l as [|x l IH]; intros w; [done|].
  rewrite fmap_cons, !for_each_cons.
  destruct (body (g x) w) as [[[]|e] w1]; [apply IH|done].
Qed.

Lemma for_each_filter {A} (P : A -> bool) (l : list A)
    (body : A -> M unit) w :
  (forall x w0, P x = false -> body x w0 = (Return tt, w0)) ->
  for_each l body w = for_each (filter (fun x => P x = true) l) body w.
Proof.
  intros Hskip. revert w. induction l as [|x l IH]; intros w; [done|].
  rewrite filter_cons. destruct (P x) eqn:E.
  - rewrite decide_True by done. rewrite !for_each_cons.
    destruct (body x w) as [[[]|e] w1]; [apply IH|done].
  - rewrite decide_False by done. rewrite for_each_cons, (Hskip _ _ E).
    apply IH.
Qed.

(** The two loops run the body on the visited pairs, in order. *)
Lemma convert_visited (top : string) (t : node) w :
  convert_md_to_ipynb top t w
  = for_each (visited top t) (fun rf => convert_file rf.1 rf.2) w.
Proof.
  unfold convert_md_to_ipynb, visited.
  revert w. induction (os_walk top t) as [|[[root ds] files] l IH];
    intros w; [done|].
  rewrite for_each_cons. simpl mbind. rewrite for_each_app, for_each_fmap.
  simpl. destruct (for_each files _ w) as [[[]|e] w1]; [apply IH|done].
Qed.

Lemma convert_file_skip (root file : string) w :
  Str.endswith file ".md" = false -> convert_file root file w = (Return tt, w).
Proof. intros H. unfold convert_file. by rewrite H. Qed.

(** ... and only the candidates among them matter. *)
Lemma convert_candidates (top : string) (t : node) w :
  convert_md_to_ipynb top t w
  = for_each (candidates top t) (fun rf => convert_file rf.1 rf.2) w.
Proof.
  rewrite convert_visited. unfold candidates.
  apply (for_each_filter is_candidate).
  intros [root file] w0 H. by apply convert_file_skip.
Qed.

Lemma remove_first_head (p : string) (l : list string) :
  remove_first p (p :: l) = l.
Proof. simpl. by rewrite String.eqb_refl. Qed.

(** The loop body on a candidate is [convert_step]. *)
Lemma convert_file_step rf w :
  is_candidate rf = true -> convert_file rf.1 rf.2 w = convert_step rf w.
Proof.
  destruct rf as [root file]. unfold is_candidate. simpl. intros Hc.
  unfold convert_file, convert_step. rewrite Hc.
  unfold block, block_no_open, block_no_child.
  unfold line_of, argv_of, dest_of, md_path_of. cbn [fst snd].
  set (md := Path.join root file). set (ip := ipynb_of md).
  rewrite bind_run. unfold print. cbv beta iota.
  rewrite bind_run. unfold with_open_w, open_w, can_open, open_error.
  cbv beta. cbn [fs opened log].
  assert (forall (d : gmap string obj) (o : list string) (l : list event),
    (let '(r, w'') := subprocess_run ["notedown"; md] ip
       (World (<[ip:=RegFile []]> d) (ip :: o) (l ++ [Open ip])) in
     (r, (close ip w'').2))
    = match execvp ["notedown"; md] (<[ip:=RegFile []]> d) with
      | Some c =>
          (Return (Completed ["notedown"; md] (child_status c)),
           World (<[ip:=RegFile (child_stdout c)]> d) o
                 (l ++ [Open ip; Spawn ["notedown"; md];
                        Wait ["notedown"; md]; Close ip]))
      | None =>
          (Raise (start_error ["notedown"; md]),
           World (<[ip:=RegFile []]> d) o (l ++ [Open ip; Close ip]))
      end) as Hbody.
  { intros d o l. unfold subprocess_run, close. cbn [fs opened log hd].
    destruct (execvp ["notedown"; md] (<[ip:=RegFile []]> d));
      cbn [fs opened log snd];
      rewrite remove_first_head, ?insert_insert_eq, <-?app_assoc; done. }
  destruct (fs w !! ip) as [[data|]|] eqn:E;
    try done;
    (destruct (denied ip); cbn [negb]; [done|]);
    rewrite Hbody; cbn [fs opened log];
    (destruct (execvp ["notedown"; md] (<[ip:=RegFile []]> (fs w)));
     rewrite <-?app_assoc; done).
Qed.

Lemma convert_all_cons rf (l : list (string * string)) w :
  is_candidate rf = true ->
  convert_all (rf :: l) w
  = match convert_step rf w with
    | (Return _, w') => convert_all l w'
    | (Raise e, w') => (Raise e, w')
    end.
Proof.
  intros Hc. unfold convert_all. by rewrite for_each_cons, convert_file_step.
Qed.

Lemma convert_walk (top : string) (t : node) w :
  convert_md_to_ipynb top t w = convert_all (candidates top t) w.
Proof. apply convert_candidates. Qed.

(** The three ways out of the loop body. *)
Lemma convert_step_inv rf w (r : outcome unit) w1 :
  convert_step rf w = (r, w1) ->
  (can_open (fs w) (dest_of rf) = false
   /\ r = Raise (open_error (fs w) (dest_of rf))
   /\ w1 = World (fs w) (opened w) (log w ++ block_no_open rf))
  \/ (can_open (fs w) (dest_of rf) = true
      /\ execvp (argv_of rf) (<[dest_of rf := RegFile []]> (fs w)) = None
      /\ r = Raise (start_error (argv_of rf))
      /\ w1 = World (<[dest_of rf := RegFile []]> (fs w)) (opened w)
                    (log w ++ block_no_child rf))
  \/ (can_open (fs w) (dest_of rf) = true
      /\ exists c,
           execvp (argv_of rf) (<[dest_of rf := RegFile []]> (fs w)) = Some c
           /\ r = Return tt
           /\ w1 = World (<[dest_of rf := RegFile (child_stdout c)]> (fs w))
                         (opened w) (log w ++ block rf)).
Proof.
  unfold convert_step. destruct (can_open (fs w) (dest_of rf)).
  - destruct (execvp _ _) as [c|]; intros [= <- <-].
    + right; right. split; [done|]. by exists c.
    + right; left. done.
  - intros [= <- <-]. by left.
Qed.

(** *** The disk *)

Lemma evolves_refl (d : gmap string obj) : evolves d d.
Proof. intros p. by left. Qed.

Lemma evolves_dir (d d' : gmap string obj) (p : string) :
  evolves d d' -> d' !! p = Some Directory <-> d !! p = Some Directory.
Proof.
  intros H. destruct (H p) as [->|[Hn [data Hd]]]; [done|].
  rewrite Hd. split; [done|]. intros Hp. by rewrite Hp in Hn.
Qed.

Lemma evolves_trans (d1 d2 d3 : gmap string obj) :
  evolves d1 d2 -> evolves d2 d3 -> evolves d1 d3.
Proof.
  intros H12 H23 p.
  destruct (H23 p) as [->|[Hn [data Hd]]]; [apply H12|].
  right. split; [|by exists data].
  intros Hp. apply Hn. by apply (evolves_dir d1 d2).
Qed.

Lemma evolves_insert (d : gmap string obj) (p : string) (data : list byte) :
  d !! p <> Some Directory -> evolves d (<[p := RegFile data]> d).
Proof.
  intros Hn q. destruct (decide (p = q)) as [<-|Hne].
  - right. split; [done|]. exists data. apply lookup_insert_eq.
  - left. by apply lookup_insert_ne.
Qed.

Lemma can_open_not_dir (d : gmap string obj) (p : string) :
  can_open d p = true -> d !! p <> Some Directory.
Proof. unfold can_open. by destruct (d !! p) as [[|]|]. Qed.

Lemma can_open_evolves (d d' : gmap string obj) (p : string) :
  evolves d d' -> can_open d' p = can_open d p.
Proof.
  intros H. unfold can_open.
  destruct (H p) as [->|[Hn [data ->]]]; [done|].
  by destruct (d !! p) as [[|]|].
Qed.

Lemma open_error_evolves (d d' : gmap string obj) (p : string) :
  evolves d d' -> open_error d' p = open_error d p.
Proof.
  intros H. unfold open_error.
  destruct (H p) as [->|[Hn [data ->]]]; [done|].
  by destruct (d !! p) as [[|]|].
Qed.

Lemma convert_step_evolves rf w (r : outcome unit) w1 :
  convert_step rf w = (r, w1) ->
  evolves (fs w) (fs w1)
  /\ forall p, p <> dest_of rf -> fs w1 !! p = fs w !! p.
Proof.
  intros [(Ho & -> & ->)|[(Ho & Hx & -> & ->)|(Ho & c & Hx & -> & ->)]]
    %convert_step_inv; simpl.
  - split; [apply evolves_refl|done].
  - split; [by apply evolves_insert, can_open_not_dir|].
    intros p Hp. by apply lookup_insert_ne.
  - split; [by apply evolves_insert, can_open_not_dir|].
    intros p Hp. by apply lookup_insert_ne.
Qed.

Lemma convert_all_evolves (l : list (string * string)) w
    (r : outcome unit) w' :
  Forall (fun rf => is_candidate rf = true) l ->
  convert_all l w = (r, w') ->
  evolves (fs w) (fs w')
  /\ forall p, (forall rf, rf ∈ l -> p <> dest_of rf) ->
               fs w' !! p = fs w !! p.
Proof.
  intros Hl. revert w. induction Hl as [|rf l Hc Hl IH]; intros w.
  - intros [= <- <-]. split; [apply evolves_refl|done].
  - rewrite convert_all_cons by done.
    destruct (convert_step rf w) as [[[]|e] w1] eqn:Hs;
      apply convert_step_evolves in Hs as [Hev Hother].
    + intros [Hev' Hother']%IH. split; [by eapply evolves_trans|].
      intros p Hp. rewrite Hother', Hother; [done|..].
      * apply Hp. by left.
      * intros rf' Hin. apply Hp. by right.
    + intros [= <- <-]. split; [done|].
      intros p Hp. apply Hother, Hp. by left.
Qed.

(** *** The log *)

(** How a run ends: it returns after all candidates, or it stops at the
    first candidate whose destination cannot be opened or whose child
    cannot be started.  Either way the log holds a complete block for
    each candidate before that one, and no file object is left open. *)
Lemma convert_all_trace (l : list (string * string)) w
    (r : outcome unit) w' :
  Forall (fun rf => is_candidate rf = true) l ->
  convert_all l w = (r, w') ->
  opened w' = opened w
  /\ exists done rest tail,
       l = done ++ rest
       /\ log w' = log w ++ concat (block <$> done) ++ tail
       /\ Forall (fun rf => can_open (fs w) (dest_of rf) = true) done
       /\ ((r = Return tt /\ rest = [] /\ tail = [])
           \/ exists rf rest',
                rest = rf :: rest'
                /\ ((can_open (fs w) (dest_of rf) = false
                     /\ r = Raise (open_error (fs w) (dest_of rf))
                     /\ tail = block_no_open rf)
                    \/ (can_open (fs w) (dest_of rf) = true
                        /\ (exists d, execvp (argv_of rf) d = None)
                        /\ r = Raise (start_error (argv_of rf))
                        /\ tail = block_no_child rf))).
Proof.
  intros Hl. revert w. induction Hl as [|rf l Hc Hl IH]; intros w.
  - intros [= <- <-]. split; [done|]. exists [], [], [].
    split; [done|]. split; [by rewrite app_nil_r|].
    split; [constructor|]. by left.
  - rewrite convert_all_cons by done.
    destruct (convert_step rf w) as [r1 w1] eqn:Hs.
    pose proof (convert_step_evolves _ _ _ _ Hs) as [Hev _].
    apply convert_step_inv in Hs
      as [(Ho & -> & ->)|[(Ho & Hx & -> & ->)|(Ho & c & Hx & -> & ->)]].
    + intros [= <- <-]. split; [done|].
      exists [], (rf :: l), (block_no_open rf).
      split; [done|]. split; [done|]. split; [constructor|].
      right. exists rf, l. split; [done|]. by left.
    + intros [= <- <-]. split; [done|].
      exists [], (rf :: l), (block_no_child rf).
      split; [done|]. split; [done|]. split; [constructor|].
      right. exists rf, l. split; [done|].
      right. split; [done|]. split; [by eexists|]. done.
    + intros (Hop & done & rest & tail & -> & Hlog & Hdone & Hend)%IH.
      simpl in Hop, Hlog, Hdone, Hend. simpl in Hev.
      split; [done|]. exists (rf :: done), rest, tail.
      split; [done|]. split.
      { rewrite Hlog, fmap_cons. simpl concat. by rewrite <-!app_assoc. }
      split.
      { constructor; [done|]. eapply Forall_impl; [exact Hdone|].
        intros rf' H. simpl in H. by rewrite <-(can_open_evolves _ _ _ Hev). }
      destruct Hend as [?|(rf' & rest' & -> & Hend)]; [by left|].
      right. exists rf', rest'. split; [done|].
      rewrite (can_open_evolves _ _ _ Hev) in Hend.
      rewrite (open_error_evolves _ _ _ Hev) in Hend. done.
Qed.

Lemma sequential_app (ph : phase) (e1 e2 : list event) :
  sequential ph (e1 ++ e2)
  = match sequential ph e1 with
    | Some ph' => sequential ph' e2
    | None => None
    end.
Proof.
  revert ph. induction e1 as [|e e1 IH]; intros ph; [done|].
  simpl. destruct (advance ph e); [apply IH|done].
Qed.

Lemma sequential_block rf : sequential Idle (block rf) = Some Idle.
Proof.
  unfold block. simpl. rewrite decide_True by done.
  simpl. by rewrite decide_True.
Qed.

Lemma sequential_blocks (l : list (string * string)) :
  sequential Idle (concat (block <$> l)) = Some Idle.
Proof.
  induction l as [|rf l IH]; [done|].
  rewrite fmap_cons. cbn [concat].
  by rewrite sequential_app, sequential_block.
Qed.

Lemma sequential_no_child rf :
  sequential Idle (block_no_child rf) = Some Aborted.
Proof. unfold block_no_child. simpl. by rewrite decide_True. Qed.

Lemma spawned_blocks (l : list (string * string)) :
  spawned (concat (block <$> l)) = argv_of <$> l.
Proof.
  induction l as [|rf l IH]; [done|].
  rewrite !fmap_cons. cbn [concat]. unfold block at 1. simpl. by f_equal.
Qed.

Lemma opens_blocks (l : list (string * string)) :
  opens (concat (block <$> l)) = dest_of <$> l.
Proof.
  induction l as [|rf l IH]; [done|].
  rewrite !fmap_cons. cbn [concat]. unfold block at 1. simpl. by f_equal.
Qed.

Lemma printed_blocks (l : list (string * string)) :
  printed (concat (block <$> l)) = line_of <$> l.
Proof.
  induction l as [|rf l IH]; [done|].
  rewrite !fmap_cons. cbn [concat]. unfold block at 1. simpl. by f_equal.
Qed.

End ScriptFacts.

(** ** The directory tree and the walk *)

Module TreeFacts.
Import StrFacts PathFacts.

(** Induction on trees, with the hypothesis for every entry of a
    directory. *)
Lemma node_ind' (P : node -> Prop) :
  (forall data, P (File data)) ->
  (forall entries, Forall (fun e => P e.2) entries -> P (Dir entries)) ->
  (forall entries, P (Closed entries)) ->
  forall t, P t.
Proof.
  intros Hfile Hdir Hclosed. fix IH 1. intros [data|entries|entries].
  - apply Hfile.
  - apply Hdir. induction entries as [|[name child] entries IHes].
    + constructor.
    + constructor; [apply IH|apply IHes].
  - apply Hclosed.
Qed.

(** The empty path names nothing: nothing is walked. *)
Lemma os_walk_empty (t : node) : os_walk "" t = [].
Proof. by destruct t. Qed.

Lemma os_walk_Dir (top : string) (entries : list (string * node)) :
  top <> "" ->
  os_walk top (Dir entries)
  = (top, dir_names entries, nondir_names entries)
    :: (entries ≫= fun e =>
          if is_dir e.2 then os_walk (Path.join top e.1) e.2 else []).
Proof.
  intros Htop. simpl. destruct (String.eqb_spec top ""); [done|]. f_equal.
  induction entries as [|[name child] entries IH]; [done|].
  rewrite bind_cons, IH. done.
Qed.

Lemma join_nonempty (a b : string) : a <> "" -> Path.join a b <> "".
Proof.
  intros Ha. unfold Path.join.
  destruct (Str.startswith b (String Path.sep "")) eqn:Hb; simpl orb.
  - intros ->. done.
  - destruct (String.eqb_spec a ""); [done|].
    destruct (Str.endswith a (String Path.sep ""));
      intros [? _]%app_eq_nil; done.
Qed.

Lemma listing_Dir (top : string) (entries : list (string * node)) :
  listing top (Dir entries)
  = (top, Directory)
    :: (entries ≫= fun e => listing (Path.join top e.1) e.2).
Proof.
  simpl. f_equal.
  induction entries as [|[name child] entries IH]; [done|].
  rewrite bind_cons, IH. done.
Qed.

Lemma wf_Dir (entries : list (string * node)) :
  wf (Dir entries) = true <->
  Forall (fun e => valid_name e.1 = true) entries
  /\ NoDup entries.*1
  /\ Forall (fun e => wf e.2 = true) entries.
Proof.
  simpl. rewrite !andb_true_iff, bool_decide_eq_true.
  assert (forallb valid_name entries.*1 = true
          <-> Forall (fun e => valid_name e.1 = true) entries) as ->.
  { induction entries as [|[n c] es IH]; simpl.
    - split; [constructor|done].
    - rewrite andb_true_iff, IH, Forall_cons. done. }
  assert ((fix wf_entries (es : list (string * node)) : bool :=
             match es with
             | [] => true
             | (_, child) :: es' => wf child && wf_entries es'
             end) entries = true
          <-> Forall (fun e => wf e.2 = true) entries) as ->.
  { induction entries as [|[n c] es IH].
    - split; [constructor|done].
    - rewrite andb_true_iff, IH, Forall_cons. done. }
  tauto.
Qed.

Lemma visited_File (top : string) (data : list byte) :
  visited top (File data) = [].
Proof. done. Qed.

Lemma visited_Closed (top : string) (entries : list (string * node)) :
  visited top (Closed entries) = [].
Proof. done. Qed.

Lemma visited_empty (t : node) : visited "" t = [].
Proof. unfold visited. by rewrite os_walk_empty. Qed.

Lemma visited_Dir (top : string) (entries : list (string * node)) :
  top <> "" ->
  visited top (Dir entries)
  = (pair top <$> nondir_names entries)
    ++ (entries ≫= fun e => visited (Path.join top e.1) e.2).
Proof.
  intros Htop. unfold visited. rewrite os_walk_Dir, bind_cons by done.
  f_equal.
  induction entries as [|[name child] entries IH]; [done|].
  rewrite !bind_cons, bind_app, IH. f_equal.
  simpl. by destruct child.
Qed.

Lemma nondir_names_elem (entries : list (string * node)) (name : string) :
  name ∈ nondir_names entries <-> exists data, (name, File data) ∈ entries.
Proof.
  unfold nondir_names. rewrite list_elem_of_fmap. split.
  - intros [[n c] [-> [Hd Hin]%list_elem_of_filter]]. simpl in *.
    destruct c as [data| |]; [|done..]. by exists data.
  - intros [data Hin]. exists (name, File data). split; [done|].
    apply list_elem_of_filter. done.
Qed.


Lemma visited_sound (t : node) :
  forall top root name,
    (root, name) ∈ visited top t ->
    exists dirs, root = dir_path top dirs /\ file_at t dirs name.
Proof.
  induction t as [data|entries IH|entries] using node_ind';
    intros top root name.
  - rewrite visited_File. by intros ?%elem_of_nil.
  - destruct (decide (top = "")) as [->|Htop].
    { rewrite visited_empty. by intros ?%elem_of_nil. }
    rewrite visited_Dir, elem_of_app by done.
    intros [Hin|Hin].
    + apply list_elem_of_fmap in Hin as [n [[= -> ->] Hn]].
      apply nondir_names_elem in Hn as [data Hn].
      exists []. split; [done|]. by econstructor.
    + apply list_elem_of_bind in Hin as [[d child] [Hin He]].
      rewrite Forall_forall in IH.
      destruct (IH _ He _ _ _ Hin) as [dirs [-> Hf]].
      exists (d :: dirs). split; [done|].
      simpl in Hf. inversion Hf; subst; by econstructor.
  - rewrite visited_Closed. by intros ?%elem_of_nil.
Qed.

(** *** Paths as strings *)

Lemma dir_prefix_len (a : string) :
  (String.length a <= String.length (dir_prefix a))%nat.
Proof.
  unfold dir_prefix. destruct (String.eqb_spec a "") as [->|]; [done|].
  destruct (Str.endswith a "/"); [done|]. rewrite length_app. lia.
Qed.

Lemma dir_prefix_clean (r : string) : clean r -> dir_prefix r = r +:+ "/".
Proof.
  intros [Hne Hend]. unfold dir_prefix. rewrite Hend.
  by destruct (String.eqb_spec r "").
Qed.

Lemma join_clean (r name : string) :
  clean r -> Str.contains name Path.sep = false ->
  Path.join r name = r +:+ "/" +:+ name.
Proof.
  intros Hr Hn. rewrite join_name, dir_prefix_clean by done.
  apply app_assoc.
Qed.

(** A prefix followed by a valid name is a clean directory path. *)
Lemma clean_name (P name : string) :
  valid_name name = true -> clean (P +:+ name).
Proof.
  intros Hv. pose proof (valid_name_nonempty _ Hv) as Hne.
  pose proof (valid_name_no_sep _ Hv) as Hns. split.
  - intros [_ ?]%app_eq_nil. done.
  - apply endswith_false. intros [pre Heq].
    pose proof (f_equal (fun s => Str.rfind s Path.sep) Heq) as Hr.
    pose proof (f_equal Str.len Heq) as Hlen.
    cbv beta in Hr. rewrite !rfind_app in Hr.
    pose proof (rfind_absent _ _ Hns) as Hz. rewrite Hz in Hr.
    change (Str.rfind "/" Path.sep) with 0 in Hr.
    change (0 <=? -1) with false in Hr. change (0 <=? 0) with true in Hr.
    cbv iota in Hr.
    rewrite !len_app in Hlen. change (Str.len "/") with 1 in Hlen.
    pose proof (rfind_lt P Path.sep).
    assert (0 < Str.len name).
    { unfold Str.len. destruct name; [done|]. simpl. lia. }
    lia.
Qed.

Lemma join_is_clean (top name : string) :
  valid_name name = true -> clean (Path.join top name).
Proof.
  intros Hv. rewrite join_name by by apply valid_name_no_sep.
  by apply clean_name.
Qed.

(** Two names without separator that open the same string, each
    followed by nothing or by a separator, are the same name. *)
Lemma name_head (a b x y : string) :
  Str.contains a Path.sep = false -> Str.contains b Path.sep = false ->
  (x = "" \/ exists x', x = "/" +:+ x') ->
  (y = "" \/ exists y', y = "/" +:+ y') ->
  a +:+ x = b +:+ y -> a = b.
Proof.
  revert b. induction a as [|c a IH]; intros [|c' b] Ha Hb Hx Hy;
    rewrite ?app_String, ?app_nil_l; try done.
  - intros ->. destruct Hx as [?|[x' Hx]]; [done|].
    rewrite app_String, app_nil_l in Hx. injection Hx as -> _.
    simpl in Hb. done.
  - intros <-. destruct Hy as [?|[y' Hy]]; [done|].
    rewrite app_String, app_nil_l in Hy. injection Hy as -> _.
    simpl in Ha. done.
  - intros [= <- Heq]. f_equal.
    simpl in Ha, Hb. apply orb_false_elim in Ha as [_ Ha].
    apply orb_false_elim in Hb as [_ Hb]. by apply (IH b).
Qed.

Lemma below_name (P n1 n2 p : string) :
  valid_name n1 = true -> valid_name n2 = true ->
  below (P +:+ n1) p -> below (P +:+ n2) p -> n1 = n2.
Proof.
  intros H1%valid_name_no_sep H2%valid_name_no_sep B1 B2.
  assert (exists x, p = P +:+ n1 +:+ x
                    /\ (x = "" \/ exists x', x = "/" +:+ x'))
    as (x & -> & Hx).
  { destruct B1 as [->|[rest ->]].
    - exists "". rewrite app_nil_r. split; [done|by left].
    - exists ("/" +:+ rest). rewrite app_assoc. split; [done|].
      right. by exists rest. }
  assert (exists y, P +:+ n1 +:+ x = P +:+ n2 +:+ y
                    /\ (y = "" \/ exists y', y = "/" +:+ y'))
    as (y & Heq & Hy).
  { destruct B2 as [->|[rest ->]].
    - exists "". rewrite app_nil_r. split; [done|by left].
    - exists ("/" +:+ rest). rewrite app_assoc. split; [done|].
      right. by exists rest. }
  apply app_inv_l in Heq. by apply (name_head n1 n2 x y).
Qed.

Lemma below_trans (r n p : string) :
  below (r +:+ "/" +:+ n) p -> below r p.
Proof.
  intros [->|[rest ->]]; right.
  - by exists n.
  - exists (n +:+ "/" +:+ rest). by rewrite !app_assoc.
Qed.

Lemma below_not_top (top n : string) :
  valid_name n = true -> ~ below (dir_prefix top +:+ n) top.
Proof.
  intros Hv%valid_name_nonempty Hb.
  pose proof (dir_prefix_len top).
  assert (0 < String.length n)%nat by (destruct n; [done|simpl; lia]).
  destruct Hb as [Heq|[rest Heq]];
    apply (f_equal String.length) in Heq;
    rewrite ?length_app in Heq; lia.
Qed.

(** Every path of a listing is the path it starts from or lies below
    it. *)
Lemma listing_below (t : node) :
  forall r p,
    wf t = true -> clean r -> p ∈ (listing r t).*1 -> below r p.
Proof.
  induction t as [data|entries IH|entries] using node_ind';
    intros r p Hwf Hr;
    [|rewrite listing_Dir, fmap_cons, elem_of_cons|].
  - simpl. intros ->%list_elem_of_singleton. by left.
  - intros [->|Hin]; [by left|].
    apply wf_Dir in Hwf as (Hnames & _ & Hsub).
    apply list_elem_of_fmap in Hin as [[p' o] [-> Hin]].
    apply list_elem_of_bind in Hin as [[n c] [Hin He]].
    rewrite Forall_forall in IH, Hnames, Hsub.
    specialize (Hnames _ He). specialize (Hsub _ He). simpl in *.
    apply (below_trans r n). rewrite <-join_clean; [|done|].
    + apply (IH _ He); [done|by apply join_is_clean|].
      apply list_elem_of_fmap. by exists (p', o).
    + by apply valid_name_no_sep.
  - simpl. intros ->%list_elem_of_singleton. by left.
Qed.

(** *** No path twice *)

Lemma fmap_bind_list {A B C} (f : B -> C) (g : A -> list B) (l : list A) :
  f <$> (l ≫= g) = l ≫= fun x => f <$> g x.
Proof.
  induction l as [|x l IH]; [done|].
  by rewrite !bind_cons, fmap_app, IH.
Qed.

Lemma NoDup_fst_unique {A B} (l : list (A * B)) (x : A) (y1 y2 : B) :
  NoDup l.*1 -> (x, y1) ∈ l -> (x, y2) ∈ l -> y1 = y2.
Proof.
  induction l as [|[a b] l IH]; [by intros _ ?%elem_of_nil|].
  rewrite fmap_cons, NoDup_cons. simpl. intros [Hnin Hnd].
  rewrite !elem_of_cons. intros [H1|H1] [H2|H2].
  - congruence.
  - injection H1 as <- <-. destruct Hnin.
    apply list_elem_of_fmap. by exists (x, y2).
  - injection H2 as <- <-. destruct Hnin.
    apply list_elem_of_fmap. by exists (x, y1).
  - by apply IH.
Qed.

(** The listings of the entries of one directory share no path. *)
Lemma NoDup_entries (top : string) (entries : list (string * node))
    (f : string * node -> list string) :
  Forall (fun e => valid_name e.1 = true) entries ->
  NoDup entries.*1 ->
  (forall e, e ∈ entries -> NoDup (f e)) ->
  (forall e p,
     e ∈ entries -> p ∈ f e -> below (dir_prefix top +:+ e.1) p) ->
  NoDup (entries ≫= f).
Proof.
  intros Hnames Hnd Hf Hbelow. rewrite Forall_forall in Hnames.
  apply NoDup_bind; [|done|by apply NoDup_fmap_1 in Hnd].
  intros [n1 c1] [n2 c2] p H1 H2 Hp1 Hp2.
  assert (n1 = n2) as <-.
  { apply (below_name (dir_prefix top) n1 n2 p).
    - apply (Hnames _ H1).
    - apply (Hnames _ H2).
    - apply (Hbelow _ _ H1 Hp1).
    - apply (Hbelow _ _ H2 Hp2). }
  f_equal. by apply (NoDup_fst_unique entries n1).
Qed.

Lemma listing_NoDup (t : node) :
  forall top, wf t = true -> NoDup (listing top t).*1.
Proof.
  induction t as [data|entries IH|entries] using node_ind'; intros top Hwf;
    [apply NoDup_singleton| |apply NoDup_singleton].
  - apply wf_Dir in Hwf as (Hnames & Hnd & Hsub).
    rewrite listing_Dir, fmap_cons, fmap_bind_list. simpl.
    rewrite Forall_forall in IH, Hsub.
    assert (forall e p, e ∈ entries ->
              p ∈ (listing (Path.join top e.1) e.2).*1 ->
              below (dir_prefix top +:+ e.1) p) as Hbelow.
    { intros e p He Hp. rewrite Forall_forall in Hnames.
      specialize (Hnames _ He).
      rewrite <-join_name by by apply valid_name_no_sep.
      apply (listing_below e.2); [by apply Hsub|by apply join_is_clean|done]. }
    apply NoDup_cons. split.
    + intros [e [Hp He]]%list_elem_of_bind.
      rewrite Forall_forall in Hnames.
      apply (below_not_top top e.1); [by apply Hnames|by apply Hbelow].
    + apply (NoDup_entries top); try done.
      intros e He. apply IH; [done|by apply Hsub].
Qed.

(** The regular files the walk visits are regular files of the
    listing, and the other way round. *)
Lemma visited_listing (t : node) :
  forall top p,
    top <> "" ->
    p ∈ md_path_of <$> visited top t <->
    is_dir t = true /\ exists data, (p, RegFile data) ∈ listing top t.
Proof.
  induction t as [data|entries IH|entries] using node_ind';
    intros top p Htop.
  - rewrite visited_File. split; [by intros ?%elem_of_nil|by intros [? _]].
  - rewrite Forall_forall in IH.
    rewrite visited_Dir, fmap_app, elem_of_app, listing_Dir by done. split.
    + intros [Hin|Hin]; (split; [done|]).
      * apply list_elem_of_fmap in Hin as [[r n] [-> Hin]].
        apply list_elem_of_fmap in Hin as [n' [[= -> <-] Hn]].
        apply nondir_names_elem in Hn as [data Hn].
        exists data. right. apply list_elem_of_bind.
        exists (n, File data). split; [|done]. simpl. by left.
      * apply list_elem_of_fmap in Hin as [rf [-> Hin]].
        apply list_elem_of_bind in Hin as [e [Hin He]].
        destruct (proj1 (IH e He (Path.join top e.1) (md_path_of rf)
                           (join_nonempty _ _ Htop)))
          as [_ [data Hd]].
        { by apply list_elem_of_fmap_2. }
        exists data. right. apply list_elem_of_bind. by exists e.
    + intros [_ [data Hin]].
      apply elem_of_cons in Hin as [[=]|Hin].
      apply list_elem_of_bind in Hin as [[n c] [Hin He]].
      destruct c as [d|sub|sub].
      * left. simpl in Hin. apply list_elem_of_singleton in Hin as [= -> <-].
        apply (list_elem_of_fmap_2' _ _ (top, n)); [|done].
        apply list_elem_of_fmap_2, nondir_names_elem. by exists data.
      * right.
        assert (p ∈ md_path_of <$> visited (Path.join top n) (Dir sub))
          as Hv.
        { apply (IH _ He); [by apply join_nonempty|].
          split; [done|]. by exists data. }
        apply list_elem_of_fmap in Hv as [rf [-> Hv]].
        apply list_elem_of_fmap_2, list_elem_of_bind.
        by exists (n, Dir sub).
      * simpl in Hin. by apply list_elem_of_singleton in Hin.
  - rewrite visited_Closed. split; [by intros ?%elem_of_nil|].
    intros [_ [data Hin]]. simpl in Hin.
    by apply list_elem_of_singleton in Hin.
Qed.

(** What the disk holds is what the listing lists. *)
Lemma disk_lookup (top : string) (t : node) (p : string) (o : obj) :
  wf t = true -> disk top t !! p = Some o <-> (p, o) ∈ listing top t.
Proof.
  intros Hwf. unfold disk. symmetry.
  by apply elem_of_list_to_map, listing_NoDup.
Qed.

Lemma disk_top_dir (top : string) (t : node) :
  wf t = true ->
  (disk top t !! top = Some Directory <-> is_dir t = true).
Proof.
  intros Hwf. rewrite disk_lookup by done.
  destruct t as [data|entries|entries].
  - simpl. split; [|done]. by intros [=]%list_elem_of_singleton.
  - rewrite listing_Dir. split; [done|]. intros _. by left.
  - simpl. split; [done|]. intros _. by apply list_elem_of_singleton.
Qed.

Lemma visited_disk (top : string) (t : node) (p : string) :
  wf t = true -> top <> "" ->
  p ∈ md_path_of <$> visited top t <->
  is_dir t = true /\ exists data, disk top t !! p = Some (RegFile data).
Proof.
  intros Hwf Htop. rewrite visited_listing by done.
  by setoid_rewrite disk_lookup.
Qed.

Lemma NoDup_fst_filter {A B} (P : A * B -> Prop)
    `{!forall x, Decision (P x)} (l : list (A * B)) :
  NoDup l.*1 -> NoDup (filter P l).*1.
Proof.
  induction l as [|x l IH]; [done|].
  rewrite fmap_cons, NoDup_cons. intros [Hnin Hnd].
  rewrite filter_cons. destruct (decide (P x)); [|by apply IH].
  rewrite fmap_cons. apply NoDup_cons. split; [|by apply IH].
  intros [y [Hy [_ Hin]%list_elem_of_filter]]%list_elem_of_fmap.
  apply Hnin. apply list_elem_of_fmap. by exists y.
Qed.

Lemma visited_below (t : node) (r : string) (rf : string * string) :
  wf t = true -> clean r -> rf ∈ visited r t -> below r (md_path_of rf).
Proof.
  intros Hwf Hr Hin. apply (listing_below t); [done..|].
  assert (md_path_of rf ∈ md_path_of <$> visited r t) as Hp
    by by apply list_elem_of_fmap_2.
  apply visited_listing in Hp as [_ [data Hd]]; [|apply Hr].
  apply list_elem_of_fmap. by exists (md_path_of rf, RegFile data).
Qed.

(** No regular file is handed to the loop body twice. *)
Lemma visited_NoDup (t : node) :
  forall top, wf t = true -> NoDup (md_path_of <$> visited top t).
Proof.
  induction t as [data|entries IH|entries] using node_ind'; intros top Hwf;
    [rewrite visited_File; constructor| |rewrite visited_Closed; constructor].
  - destruct (decide (top = "")) as [->|Htop].
    { rewrite visited_empty. constructor. }
    apply wf_Dir in Hwf as (Hnames & Hnd & Hsub).
    rewrite Forall_forall in IH, Hnames, Hsub.
    rewrite visited_Dir, fmap_app, fmap_bind_list by done.
    assert (forall e rf, e ∈ entries ->
              rf ∈ visited (Path.join top e.1) e.2 ->
              below (dir_prefix top +:+ e.1) (md_path_of rf)) as Hbelow.
    { intros e rf He Hrf. specialize (Hnames _ He).
      rewrite <-join_name by by apply valid_name_no_sep.
      apply (visited_below e.2); [by apply Hsub|by apply join_is_clean|done]. }
    apply NoDup_app. split; [|split].
    + rewrite <-list_fmap_compose. apply NoDup_fmap_2_strong.
      * intros n1 n2 [d1 H1]%nondir_names_elem [d2 H2]%nondir_names_elem.
        unfold md_path_of. simpl.
        rewrite !join_name
          by (apply valid_name_no_sep; by eapply (Hnames (_, _))).
        apply app_inv_l.
      * by apply NoDup_fst_filter.
    + intros p Hfile Hdirs.
      apply list_elem_of_fmap in Hfile as [[r n] [-> Hfile]].
      apply list_elem_of_fmap in Hfile as [n' [[= -> <-] Hn]].
      apply nondir_names_elem in Hn as [data Hn].
      apply list_elem_of_bind in Hdirs as [[n2 c] [Hp He]].
      apply list_elem_of_fmap in Hp as [rf [Heq Hrf]].
      assert (n = n2) as <-.
      { apply (below_name (dir_prefix top) n n2 (md_path_of (top, n))).
        - apply (Hnames _ Hn).
        - apply (Hnames _ He).
        - left. unfold md_path_of. simpl. apply join_name.
          apply valid_name_no_sep, (Hnames _ Hn).
        - rewrite Heq. apply (Hbelow _ _ He Hrf). }
      assert (c = File data) as ->
        by by apply (NoDup_fst_unique entries n).
      simpl in Hrf. by apply elem_of_nil in Hrf.
    + apply (NoDup_entries top); try done.
      * by apply Forall_forall.
      * intros e He. apply IH; [done|by apply Hsub].
      * intros e p He [rf [-> Hrf]]%list_elem_of_fmap. by apply Hbelow.
Qed.

End TreeFacts.

(** * The properties of the specification *)

Import StrFacts PathFacts TreeFacts.

(** ** Output path derivation *)

Lemma dest_of_md (root stem : string) :
  Str.contains stem Path.sep = false ->
  dest_of (root, stem +:+ ".md")
  = if all_dots stem then dir_prefix root +:+ stem +:+ ".md" +:+ ".ipynb"
    else dir_prefix root +:+ stem +:+ ".ipynb".
Proof.
  intros Hstem. unfold dest_of, md_path_of, ipynb_of. simpl.
  rewrite join_name by (by rewrite contains_app, Hstem).
  rewrite splitext_md by (done || apply dir_prefix_is_prefix).
  destruct (all_dots stem); simpl; by rewrite !app_assoc.
Qed.

Lemma spec_output_md (r stem : string) :
  is_prefix r -> Str.contains stem Path.sep = false ->
  spec_output_path (r +:+ stem +:+ ".md") = r +:+ stem +:+ ".ipynb".
Proof.
  intros Hr Hstem. unfold spec_output_path.
  assert (Str.rfind (r +:+ stem +:+ ".md") Path.sep = Str.len r - 1) as ->.
  { apply rfind_sep_prefix; [done|]. by rewrite contains_app, Hstem. }
  assert (Str.rfind (r +:+ stem +:+ ".md") Path.extsep
          = Str.len (r +:+ stem)) as ->.
  { rewrite <-app_assoc, rfind_app. simpl. lia. }
  pose proof (len_nonneg stem). pose proof (len_nonneg r).
  rewrite len_app.
  destruct (Str.len r - 1 <? Str.len r + Str.len stem) eqn:E;
    [|apply Z.ltb_ge in E; lia].
  rewrite <-len_app, <-app_assoc, slice_to_app. apply app_assoc.
Qed.


(** C3 fails on a candidate named [.md]: the wording strips the whole
    name and gives [./.ipynb], the code strips nothing and gives
    [./.md.ipynb], and that is the file a run creates. *)
Lemma C3_dotfile_counterexample :
  is_candidate (".", ".md") = true
  /\ dest_of (".", ".md") = "./.md.ipynb"
  /\ spec_output_path (md_path_of (".", ".md")) = "./.ipynb"
  /\ dest_of (".", ".md") <> spec_output_path (md_path_of (".", ".md"))
  /\ fs (main (OS := plain_os) dotfile_tree (boot "." dotfile_tree)).2
       !! "./.md.ipynb" = Some (RegFile notebook)
  /\ fs (main (OS := plain_os) dotfile_tree (boot "." dotfile_tree)).2
       !! "./.ipynb" = None.
Proof. repeat split; by vm_compute. Qed.

(** C3, amended.  For every candidate whose name has a character other
    than [.] before its final [.md], the derived output path is the
    candidate's full path with the substring from the last [.] of the file
    name to the end stripped and [.ipynb] appended, a sibling of the
    candidate; for [archive.tar.md] it is [archive.tar.ipynb]. *)
Theorem C3_output_path (root stem : string) :
  Str.contains stem Path.sep = false ->
  all_dots stem = false ->
  is_candidate (root, stem +:+ ".md") = true
  /\ dest_of (root, stem +:+ ".md")
     = spec_output_path (md_path_of (root, stem +:+ ".md"))
  /\ dest_of (root, stem +:+ ".md") = Path.join root (stem +:+ ".ipynb")
  /\ dest_of (root, "archive.tar.md") = Path.join root "archive.tar.ipynb".
Proof.
  intros Hstem Hdots.
  split; [apply endswith_app|].
  assert (forall s, Str.contains s Path.sep = false -> all_dots s = false ->
            dest_of (root, s +:+ ".md") = Path.join root (s +:+ ".ipynb"))
    as Hdest.
  { intros s Hs Hd. rewrite dest_of_md, Hd by done.
    rewrite join_name; [done|]. by rewrite contains_app, Hs. }
  split; [|split].
  - rewrite dest_of_md, Hdots by done. unfold md_path_of. simpl.
    rewrite join_name by (by rewrite contains_app, Hstem).
    symmetry. apply spec_output_md; [apply dir_prefix_is_prefix|done].
  - by apply Hdest.
  - by apply (Hdest "archive.tar").
Qed.

Lemma C3_output_path_witness :
  Str.contains "archive.tar" Path.sep = false
  /\ all_dots "archive.tar" = false
  /\ dest_of ("docs", "archive.tar.md") = "docs/archive.tar.ipynb".
Proof.
  split; [done|]. split; [done|].
  destruct (C3_output_path "docs" "archive.tar" eq_refl eq_refl)
    as (_ & _ & H & _).
  exact H.
Defined.

(** ** Selection of candidates *)

(** Whatever is started, opened or printed in a run belongs to a candidate
    of the walk, and the disk changes at candidates' destinations only. *)
Lemma run_footprint `{OS : Platform} (top : string) (t : node) (w : world) :
  let w' := (convert_md_to_ipynb top t w).2 in
  exists evs,
    log w' = log w ++ evs
    /\ (forall argv, argv ∈ spawned evs ->
          exists rf, rf ∈ candidates top t /\ argv = argv_of rf)
    /\ (forall p, p ∈ opens evs ->
          exists rf, rf ∈ candidates top t /\ p = dest_of rf)
    /\ (forall p, (forall rf, rf ∈ candidates top t -> p <> dest_of rf) ->
          fs w' !! p = fs w !! p).
Proof.
  intros w'. subst w'. rewrite convert_walk.
  destruct (convert_all (candidates top t) w) as [r w'] eqn:Hrun. simpl.
  assert (Forall (fun rf => is_candidate rf = true) (candidates top t))
    as Hc.
  { apply Forall_forall. by intros rf [? _]%list_elem_of_filter. }
  destruct (convert_all_trace _ _ _ _ Hc Hrun)
    as (_ & done & rest & tail & Hl & Hlog & _ & Hend).
  destruct (convert_all_evolves _ _ _ _ Hc Hrun) as [_ Hother].
  exists (concat (block <$> done) ++ tail).
  split; [done|].
  assert (forall rf, rf ∈ done ++ rest -> rf ∈ candidates top t) as Hin
    by (by rewrite Hl).
  assert (spawned tail = [] /\
          (opens tail = []
           \/ exists rf rest', rest = rf :: rest' /\ opens tail = [dest_of rf]))
    as [Hsp Hop].
  { destruct Hend
      as [(_ & _ & ->)
         |(rf & rest' & -> & [(_ & _ & ->)|(_ & _ & _ & ->)])].
    - split; [done|by left].
    - split; [done|by left].
    - split; [done|]. right. by exists rf, rest'. }
  split; [|split; [|done]].
  - intros argv. unfold spawned in *. rewrite omap_app, elem_of_app.
    fold (spawned (concat (block <$> done))). rewrite spawned_blocks, Hsp.
    intros [[rf [-> Hrf]]%list_elem_of_fmap|?%elem_of_nil]; [|done].
    exists rf. split; [|done]. apply Hin, elem_of_app. by left.
  - intros p. unfold opens in *. rewrite omap_app, elem_of_app.
    fold (opens (concat (block <$> done))). rewrite opens_blocks.
    intros [[rf [-> Hrf]]%list_elem_of_fmap|Hp].
    + exists rf. split; [|done]. apply Hin, elem_of_app. by left.
    + destruct Hop as [Hop|(rf & rest' & -> & Hop)]; rewrite Hop in Hp.
      * by apply elem_of_nil in Hp.
      * apply list_elem_of_singleton in Hp as ->. exists rf. split; [|done].
        apply Hin, elem_of_app. right. by left.
Qed.

(** C2.  A file is a conversion candidate exactly when its name ends with
    the literal suffix [.md], upper and lower case being different
    characters.  On a file whose name does not end so, the loop body does
    nothing: no child is started, no file is opened, nothing is printed and
    the disk is left as it is.  Over a whole run, every child that is
    started and every file that is opened belongs to a visited file whose
    name ends in [.md], and no other path of the disk changes. *)
Theorem C2_candidates_only `{OS : Platform} :
  (forall file, Str.endswith file ".md" = true
                <-> exists stem, file = stem +:+ ".md")
  /\ Str.endswith "README.MD" ".md" = false
  /\ Str.endswith "image.png" ".md" = false
  /\ (forall root file w,
        Str.endswith file ".md" = false ->
        convert_file root file w = (Return tt, w))
  /\ (forall top t w,
        let w' := (convert_md_to_ipynb top t w).2 in
        exists evs,
          log w' = log w ++ evs
          /\ (forall argv, argv ∈ spawned evs ->
                exists root file,
                  (root, file) ∈ visited top t
                  /\ Str.endswith file ".md" = true
                  /\ argv = ["notedown"; Path.join root file])
          /\ (forall p, p ∈ opens evs ->
                exists root file,
                  (root, file) ∈ visited top t
                  /\ Str.endswith file ".md" = true
                  /\ p = ipynb_of (Path.join root file))
          /\ (forall p,
                (forall root file,
                   (root, file) ∈ visited top t ->
                   Str.endswith file ".md" = true ->
                   p <> ipynb_of (Path.join root file)) ->
                fs w' !! p = fs w !! p)).
Proof.
  split; [intros file; apply endswith_iff|].
  split; [done|]. split; [done|].
  split; [intros root file w; apply convert_file_skip|].
  intros top t w w'.
  destruct (run_footprint top t w) as (evs & Hlog & Hsp & Hop & Hfs).
  exists evs. split; [done|]. split; [|split].
  - intros argv (rf & [Hc Hv]%list_elem_of_filter & ->)%Hsp.
    destruct rf as [root file]. by exists root, file.
  - intros p (rf & [Hc Hv]%list_elem_of_filter & ->)%Hop.
    destruct rf as [root file]. by exists root, file.
  - intros p Hp. apply Hfs.
    intros [root file] [Hc Hv]%list_elem_of_filter. by apply Hp.
Qed.

(** In the scenario tree, on a disk that holds it, only the three files
    named [*.md] start a child, and the image keeps its content. *)
Lemma C2_candidates_only_witness :
  Str.endswith "image.png" ".md" = false
  /\ convert_file (OS := plain_os) "." "image.png" (boot "." demo_tree)
     = (Return tt, boot "." demo_tree)
  /\ spawned (log (main (OS := plain_os) demo_tree (boot "." demo_tree)).2)
     = [["notedown"; "./notes.md"]; ["notedown"; "./archive.tar.md"];
        ["notedown"; "./sub/dir/readme.md"]].
Proof.
  split; [done|]. split.
  - destruct (C2_candidates_only (OS := plain_os)) as (_ & _ & _ & H & _).
    by apply H.
  - vm_compute. reflexivity.
Defined.

(** ** One candidate at a time *)

Lemma candidates_are_candidates (top : string) (t : node) :
  Forall (fun rf => is_candidate rf = true) (candidates top t).
Proof. apply Forall_forall. by intros rf [? _]%list_elem_of_filter. Qed.

Lemma concat_blocks (l : list (string * string)) :
  concat (block <$> l) = l ≫= block.
Proof.
  induction l as [|rf l IH]; [done|].
  by rewrite fmap_cons, bind_cons, <-IH.
Qed.

(** The loop body on a candidate gives back the file object it opened,
    and when it returns, a child has been run to its end and has left its
    standard output in the destination. *)
Lemma convert_file_done `{OS : Platform} (root file : string) (w0 : world) :
  Str.endswith file ".md" = true ->
  opened (convert_file root file w0).2 = opened w0
  /\ ((convert_file root file w0).1 = Return tt ->
      exists c,
        execvp ["notedown"; Path.join root file]
               (<[ipynb_of (Path.join root file) := RegFile []]> (fs w0))
        = Some c
        /\ fs (convert_file root file w0).2
           = <[ipynb_of (Path.join root file) := RegFile (child_stdout c)]>
               (fs w0)
        /\ log (convert_file root file w0).2
           = log w0 ++ block (root, file)).
Proof.
  intros Hc. rewrite (convert_file_step (root, file)) by done.
  destruct (convert_step (root, file) w0) as [r1 w1] eqn:Hs.
  apply convert_step_inv in Hs
    as [(_ & -> & ->)|[(_ & _ & -> & ->)|(_ & c & Hx & -> & ->)]];
    (split; [done|]); try done.
  intros _. by exists c.
Qed.

(** C9.  Whatever way a run ends, it has dealt with the candidates one
    after the other, in the order of the walk.  For each of a first part
    of them the log holds, in this order and with nothing in between, the
    announcing line, the opening of the destination, the start of the
    child, the wait for its end and the closing of the destination; a run
    that returns has done so for all of them.  A run that does not return
    was stopped by an exception at the next candidate: either its
    destination could not be opened, and nothing was opened for it, or its
    child could not be started, and the destination was closed before the
    exception left the run; nothing follows in the log.  So a destination
    is opened only when none is open and the child of the one before has
    been waited for, and no file object is left open by the run.  The loop
    body on a candidate never leaves a file object open, and when it
    returns, the child has run to its end on the disk with the destination
    truncated, and the destination holds its standard output.  The [with]
    block gives its file object back on every way out of its body. *)
Theorem C9_sequential `{OS : Platform} (top : string) (t : node) (w : world) :
  let r := (convert_md_to_ipynb top t w).1 in
  let w' := (convert_md_to_ipynb top t w).2 in
  opened w' = opened w
  /\ (exists done rest tail,
        candidates top t = done ++ rest
        /\ log w' = log w ++ (done ≫= block) ++ tail
        /\ ((r = Return tt /\ rest = [] /\ tail = []
             /\ sequential Idle ((done ≫= block) ++ tail) = Some Idle)
            \/ (exists rf rest' e,
                  rest = rf :: rest' /\ r = Raise e
                  /\ ((tail = [Print (line_of rf)]
                       /\ can_open (fs w) (dest_of rf) = false
                       /\ sequential Idle ((done ≫= block) ++ tail)
                          = Some Idle)
                      \/ (tail = [Print (line_of rf); Open (dest_of rf);
                                  Close (dest_of rf)]
                          /\ (exists d, execvp (argv_of rf) d = None)
                          /\ sequential Idle ((done ≫= block) ++ tail)
                             = Some Aborted)))))
  /\ (forall w0,
        convert_md_to_ipynb top t w0
        = for_each (candidates top t) (fun rf => convert_file rf.1 rf.2) w0)
  /\ (forall root file w0,
        Str.endswith file ".md" = true ->
        opened (convert_file root file w0).2 = opened w0
        /\ ((convert_file root file w0).1 = Return tt ->
            exists c,
              execvp ["notedown"; Path.join root file]
                     (<[ipynb_of (Path.join root file) := RegFile []]>
                        (fs w0))
              = Some c
              /\ fs (convert_file root file w0).2
                 = <[ipynb_of (Path.join root file)
                       := RegFile (child_stdout c)]> (fs w0)
              /\ log (convert_file root file w0).2
                 = log w0 ++
                   [Print ("Converting: " +:+ Path.join root file +:+ " -> "
                           +:+ ipynb_of (Path.join root file));
                    Open (ipynb_of (Path.join root file));
                    Spawn ["notedown"; Path.join root file];
                    Wait ["notedown"; Path.join root file];
                    Close (ipynb_of (Path.join root file))]))
  /\ (forall (A : Type) (path : string) (body : string -> M A) (w0 : world),
        (forall f w1, opened (body f w1).2 = opened w1) ->
        opened (with_open_w path body w0).2 = opened w0).
Proof.
  intros r w'. subst r w'.
  split; [|split; [|split; [apply convert_candidates|split]]].
  - rewrite convert_walk.
    destruct (convert_all (candidates top t) w) as [r w'] eqn:Hrun.
    by destruct (convert_all_trace _ _ _ _
                   (candidates_are_candidates top t) Hrun) as [Hop _].
  - rewrite convert_walk.
    destruct (convert_all (candidates top t) w) as [r w'] eqn:Hrun. simpl.
    destruct (convert_all_trace _ _ _ _
                (candidates_are_candidates top t) Hrun)
      as (_ & done & rest & tail & Hl & Hlog & _ & Hend).
    rewrite concat_blocks in Hlog.
    exists done, rest, tail. split; [done|]. split; [done|].
    rewrite sequential_app, <-concat_blocks, sequential_blocks.
    destruct Hend
      as [(-> & -> & ->)
         |(rf & rest' & -> & [(Hno & -> & ->)|(_ & Hx & -> & ->)])].
    + by left.
    + right. exists rf, rest', (open_error (fs w) (dest_of rf)).
      split; [done|]. split; [done|]. by left.
    + right. exists rf, rest', (start_error (argv_of rf)).
      split; [done|]. split; [done|]. right.
      split; [done|]. split; [done|]. apply sequential_no_child.
  - intros root file w0 Hc. by apply convert_file_done.
  - intros A path body w0 Hbody. unfold with_open_w, open_w.
    destruct (fs w0 !! path) as [[data|]|]; try done;
      (destruct (denied path); [done|]);
      match goal with |- context [body path ?w1] =>
        specialize (Hbody path w1); destruct (body path w1) as [r1 w2]
      end; simpl in *; rewrite Hbody; apply remove_first_head.
Qed.

(** The scenario tree: with a converter, the log of the run is the three
    complete episodes, one after the other, and nothing stays open;
    without one, the first candidate's destination is opened, the child
    cannot be started, and the destination is closed before the exception
    leaves the run. *)
Lemma C9_sequential_witness :
  convert_md_to_ipynb (OS := plain_os) "." demo_tree (boot "." demo_tree)
  = (Return tt,
     World (<["./sub/dir/readme.ipynb" := RegFile notebook]>
              (<["./archive.tar.ipynb" := RegFile notebook]>
                 (<["./notes.ipynb" := RegFile notebook]>
                    (disk "." demo_tree))))
           []
           (block (".", "notes.md") ++ block (".", "archive.tar.md")
            ++ block ("./sub/dir", "readme.md")))
  /\ sequential Idle
       (block (".", "notes.md") ++ block (".", "archive.tar.md")
        ++ block ("./sub/dir", "readme.md")) = Some Idle
  /\ sequential Idle
       [Print "Converting: ./notes.md -> ./notes.ipynb";
        Open "./notes.ipynb"; Close "./notes.ipynb";
        Print "Converting: ./archive.tar.md -> ./archive.tar.ipynb"] = None
  /\ opened (convert_md_to_ipynb (OS := plain_os) "." demo_tree
               (boot "." demo_tree)).2 = []
  /\ convert_md_to_ipynb (OS := bare_os) "." demo_tree (boot "." demo_tree)
     = (Raise (FileNotFoundError "notedown"),
        World (<["./notes.ipynb" := RegFile []]> (disk "." demo_tree)) []
              [Print "Converting: ./notes.md -> ./notes.ipynb";
               Open "./notes.ipynb"; Close "./notes.ipynb"])
  /\ opened (convert_md_to_ipynb (OS := bare_os) "." demo_tree
               (boot "." demo_tree)).2 = [].
Proof.
  split; [by vm_compute|]. split; [by vm_compute|]. split; [by vm_compute|].
  split; [|split; [by vm_compute|]].
  - pose proof (C9_sequential (OS := plain_os) "." demo_tree
                  (boot "." demo_tree)) as H.
    cbv zeta in H. destruct H as [H _]. exact H.
  - pose proof (C9_sequential (OS := bare_os) "." demo_tree
                  (boot "." demo_tree)) as H.
    cbv zeta in H. destruct H as [H _]. exact H.
Defined.

(** ** What a conversion does *)

Lemma convert_all_return `{OS : Platform} (l : list (string * string))
    (w w' : world) :
  Forall (fun rf => is_candidate rf = true) l ->
  convert_all l w = (Return tt, w') ->
  log w' = log w ++ concat (block <$> l)
  /\ Forall (fun rf => can_open (fs w) (dest_of rf) = true) l.
Proof.
  intros Hc Hrun.
  destruct (convert_all_trace _ _ _ _ Hc Hrun)
    as (_ & done & rest & tail & Hl & Hlog & Hdone & Hend).
  destruct Hend
    as [(_ & Hrest & Htail)
       |(rf & rest' & _ & [(_ & [=] & _)|(_ & _ & [=] & _)])].
  subst rest tail. rewrite List.app_nil_r in Hl, Hlog. by subst l.
Qed.

(** C5.  In a run that returns, the log holds for every candidate, in the
    order of the walk, the line that announces its source and destination
    paths, the opening of the destination, the start of a child with the
    argument vector [notedown <source path>] and nothing else, the wait
    for it, and the closing of the destination.  The loop body on a
    candidate whose destination can be opened and whose child can be
    started leaves in the destination exactly the bytes of the child's
    standard output, the child having run on the disk with the
    destination already truncated. *)
Theorem C5_conversion `{OS : Platform} (top : string) (t : node)
    (w w' : world) :
  convert_md_to_ipynb top t w = (Return tt, w') ->
  log w' = log w ++
    (candidates top t ≫= fun rf =>
       [Print ("Converting: " +:+ Path.join rf.1 rf.2 +:+ " -> "
               +:+ ipynb_of (Path.join rf.1 rf.2));
        Open (ipynb_of (Path.join rf.1 rf.2));
        Spawn ["notedown"; Path.join rf.1 rf.2];
        Wait ["notedown"; Path.join rf.1 rf.2];
        Close (ipynb_of (Path.join rf.1 rf.2))])
  /\ (forall root file w0 c,
        Str.endswith file ".md" = true ->
        can_open (fs w0) (ipynb_of (Path.join root file)) = true ->
        execvp ["notedown"; Path.join root file]
               (<[ipynb_of (Path.join root file) := RegFile []]> (fs w0))
        = Some c ->
        convert_file root file w0
        = (Return tt,
           World (<[ipynb_of (Path.join root file)
                      := RegFile (child_stdout c)]> (fs w0))
                 (opened w0)
                 (log w0 ++
                  [Print ("Converting: " +:+ Path.join root file +:+ " -> "
                          +:+ ipynb_of (Path.join root file));
                   Open (ipynb_of (Path.join root file));
                   Spawn ["notedown"; Path.join root file];
                   Wait ["notedown"; Path.join root file];
                   Close (ipynb_of (Path.join root file))]))).
Proof.
  intros Hrun. rewrite convert_walk in Hrun. split.
  - apply convert_all_return in Hrun as [Hlog _];
      [|apply candidates_are_candidates].
    by rewrite Hlog, concat_blocks.
  - intros root file w0 c Hc Ho Hx.
    rewrite (convert_file_step (root, file)) by done.
    unfold convert_step, dest_of, argv_of, md_path_of. simpl.
    by rewrite Ho, Hx.
Qed.

Lemma C5_conversion_witness :
  convert_md_to_ipynb (OS := plain_os) "." demo_tree (boot "." demo_tree)
  = (Return tt,
     World (<["./sub/dir/readme.ipynb" := RegFile notebook]>
              (<["./archive.tar.ipynb" := RegFile notebook]>
                 (<["./notes.ipynb" := RegFile notebook]>
                    (disk "." demo_tree))))
           []
           (block (".", "notes.md") ++ block (".", "archive.tar.md")
            ++ block ("./sub/dir", "readme.md")))
  /\ log (convert_md_to_ipynb (OS := plain_os) "." demo_tree
            (boot "." demo_tree)).2
     = candidates "." demo_tree ≫= block.
Proof.
  assert (convert_md_to_ipynb (OS := plain_os) "." demo_tree
            (boot "." demo_tree)
          = (Return tt,
             World (<["./sub/dir/readme.ipynb" := RegFile notebook]>
                      (<["./archive.tar.ipynb" := RegFile notebook]>
                         (<["./notes.ipynb" := RegFile notebook]>
                            (disk "." demo_tree))))
                   []
                   (block (".", "notes.md") ++ block (".", "archive.tar.md")
                    ++ block ("./sub/dir", "readme.md")))) as Hrun
    by by vm_compute.
  split; [exact Hrun|].
  destruct (C5_conversion (OS := plain_os) "." demo_tree _ _ Hrun)
    as [Hlog _].
  rewrite Hrun. exact Hlog.
Defined.

(** ** Failures *)

Lemma for_each_ext_in {A} (l : list A) (f g : A -> M unit) (w : world) :
  (forall x w0, x ∈ l -> f x w0 = g x w0) -> for_each l f w = for_each l g w.
Proof.
  revert w. induction l as [|x l IH]; intros w Hfg; [done|].
  rewrite !for_each_cons, Hfg by by left.
  destruct (g x w) as [[[]|e] w1]; [|done].
  apply IH. intros y w0 Hy. apply Hfg. by right.
Qed.

(** Two platforms that refuse the same paths and whose children write the
    same standard output take the loop body the same way on a file whose
    child can be started, whatever the children's exit status and standard
    error. *)
Lemma convert_file_agree (OS1 OS2 : Platform) (root file : string)
    (w : world) :
  (forall p, denied (Platform := OS1) p = denied (Platform := OS2) p) ->
  (forall argv d,
     child_stdout <$> execvp (Platform := OS1) argv d
     = child_stdout <$> execvp (Platform := OS2) argv d) ->
  (forall d, is_Some (execvp (Platform := OS1) (argv_of (root, file)) d)) ->
  convert_file (OS := OS1) root file w = convert_file (OS := OS2) root file w.
Proof.
  intros Hden Hout Hexec.
  destruct (Str.endswith file ".md") eqn:Hc;
    [|by rewrite !convert_file_skip].
  rewrite !(convert_file_step (root, file)) by done.
  unfold convert_step, can_open. rewrite Hden.
  specialize (Hout (argv_of (root, file))
                   (<[dest_of (root, file) := RegFile []]> (fs w))).
  destruct (Hexec (<[dest_of (root, file) := RegFile []]> (fs w)))
    as [c1 Hc1].
  rewrite Hc1 in Hout |- *.
  destruct (execvp (Platform := OS2) _ _) as [c2|];
    simpl in Hout; [|done].
  injection Hout as ->. done.
Qed.

(** C6.  The function returns nothing but [None], and when every
    destination can be opened and the converter can be started it returns
    after the last candidate, with a child started for every candidate,
    whatever the children's exit status and standard error: on a platform
    that differs in these alone the run ends the same way in the same
    world, so that a failed conversion shows in nothing but the bytes its
    child wrote to the destination. *)
Theorem C6_failures_ignored `{OS : Platform} (top : string) (t : node)
    (w : world) :
  (forall rf, rf ∈ candidates top t ->
     can_open (fs w) (dest_of rf) = true) ->
  (forall rf d, rf ∈ candidates top t -> is_Some (execvp (argv_of rf) d)) ->
  (exists w',
     convert_md_to_ipynb top t w = (Return tt, w')
     /\ spawned (drop (length (log w)) (log w'))
        = (fun rf => ["notedown"; Path.join rf.1 rf.2]) <$> candidates top t)
  /\ (forall OS2 : Platform,
        (forall p, denied (Platform := OS2) p = denied (Platform := OS) p) ->
        (forall argv d,
           child_stdout <$> execvp (Platform := OS2) argv d
           = child_stdout <$> execvp (Platform := OS) argv d) ->
        convert_md_to_ipynb (OS := OS2) top t w
        = convert_md_to_ipynb (OS := OS) top t w).
Proof.
  intros Hopen Hexec. split.
  - rewrite convert_walk.
    destruct (convert_all (candidates top t) w) as [r w'] eqn:Hrun.
    destruct (convert_all_trace _ _ _ _ (candidates_are_candidates top t) Hrun)
      as (_ & done & rest & tail & Hl & Hlog & _ & Hend).
    destruct Hend
      as [(-> & -> & ->)
         |(rf & rest' & -> & [(Hno & _)|(_ & [d Hd] & _)])].
    + exists w'. split; [done|].
      rewrite Hlog, !List.app_nil_r, drop_app_length, spawned_blocks.
      rewrite List.app_nil_r in Hl. by rewrite Hl.
    + rewrite Hopen in Hno; [done|].
      rewrite Hl, elem_of_app. right. by left.
    + destruct (Hexec rf d) as [c Hc]; [|by rewrite Hd in Hc].
      rewrite Hl, elem_of_app. right. by left.
  - intros OS2 Hden Hout. symmetry. rewrite !convert_candidates.
    apply for_each_ext_in. intros [root file] w0 Hin.
    apply convert_file_agree.
    + intros p. symmetry. apply Hden.
    + intros argv d. symmetry. apply Hout.
    + intros d. by apply Hexec.
Qed.

(** A converter that fails on every file: all three candidates of the
    scenario tree are still processed, the function returns, and the
    destinations are there, empty. *)
Lemma C6_failures_ignored_witness :
  (forall rf, rf ∈ candidates "." demo_tree ->
     can_open (OS := failing_os) (fs (boot "." demo_tree)) (dest_of rf) = true)
  /\ (forall rf d, rf ∈ candidates "." demo_tree ->
        is_Some (execvp (Platform := failing_os) (argv_of rf) d))
  /\ (exists w',
        convert_md_to_ipynb (OS := failing_os) "." demo_tree
          (boot "." demo_tree) = (Return tt, w')
        /\ spawned (drop (length (log (boot "." demo_tree))) (log w'))
           = [["notedown"; "./notes.md"]; ["notedown"; "./archive.tar.md"];
              ["notedown"; "./sub/dir/readme.md"]])
  /\ convert_md_to_ipynb (OS := killed_os) "." demo_tree (boot "." demo_tree)
     = convert_md_to_ipynb (OS := failing_os) "." demo_tree
         (boot "." demo_tree).
Proof.
  assert (forall rf, rf ∈ candidates "." demo_tree ->
            can_open (OS := failing_os) (fs (boot "." demo_tree)) (dest_of rf)
            = true) as Hopen.
  { intros rf Hrf. vm_compute in Hrf.
    repeat (apply elem_of_cons in Hrf as [->|Hrf]; [by vm_compute|]).
    by apply elem_of_nil in Hrf. }
  assert (forall rf d, rf ∈ candidates "." demo_tree ->
            is_Some (execvp (Platform := failing_os) (argv_of rf) d))
    as Hexec.
  { intros rf d _. by eexists. }
  split; [exact Hopen|]. split; [exact Hexec|].
  destruct (C6_failures_ignored (OS := failing_os) "." demo_tree
              (boot "." demo_tree) Hopen Hexec) as [Hrun Hsame].
  split; [exact Hrun|].
  apply (Hsame killed_os); [done|].
  intros argv d. unfold execvp, killed_os, failing_os.
  by repeat case_match.
Defined.

Lemma convert_all_halt `{OS : Platform} (pre : list (string * string)) :
  forall (rf : string * string) (post : list (string * string)) (w : world),
    Forall (fun c => is_candidate c = true) (pre ++ rf :: post) ->
    Forall (fun c => can_open (fs w) (dest_of c) = true) pre ->
    (forall c d, c ∈ pre -> is_Some (execvp (argv_of c) d)) ->
    can_open (fs w) (dest_of rf) = false ->
    exists w',
      convert_all (pre ++ rf :: post) w
      = (Raise (open_error (fs w) (dest_of rf)), w')
      /\ log w' = log w ++ concat (block <$> pre) ++ [Print (line_of rf)]
      /\ opened w' = opened w.
Proof.
  induction pre as [|c pre IH]; intros rf post w Hc Hopen Hexec Hno.
  - simpl app in *. apply Forall_cons in Hc as [Hrf _].
    rewrite convert_all_cons by done. unfold convert_step. rewrite Hno.
    eexists. split; [done|]. done.
  - rewrite <-app_comm_cons in *.
    apply Forall_cons in Hc as [Hcc Hc].
    apply Forall_cons in Hopen as [Hco Hopen].
    rewrite convert_all_cons by done.
    destruct (convert_step c w) as [r1 w1] eqn:Hs.
    pose proof (convert_step_evolves _ _ _ _ Hs) as [Hev _].
    apply convert_step_inv in Hs
      as [(Ho & _)|[(_ & Hx & _)|(_ & ch & _ & -> & ->)]].
    + by rewrite Hco in Ho.
    + destruct (Hexec c (<[dest_of c:=RegFile []]> (fs w))) as [ch Hch];
        [by left|]. by rewrite Hx in Hch.
    + simpl in Hev.
      destruct (IH rf post
                  (World (<[dest_of c:=RegFile (child_stdout ch)]> (fs w))
                         (opened w) (log w ++ block c)))
        as (w' & Hrun & Hlog & Hop).
      * done.
      * eapply Forall_impl; [exact Hopen|]. intros c' H. simpl.
        by rewrite (can_open_evolves _ _ _ Hev).
      * intros c' d Hin. apply Hexec. by right.
      * simpl. by rewrite (can_open_evolves _ _ _ Hev).
      * exists w'. cbn [fs opened log] in Hrun, Hlog, Hop.
        rewrite (open_error_evolves _ _ _ Hev) in Hrun.
        split; [done|]. split; [|done].
        rewrite Hlog, fmap_cons. cbn [concat].
        by rewrite <-!List.app_assoc.
Qed.

(** C7.  When the destination of a candidate cannot be opened, all
    candidates before it having been converted, the exception [open]
    raises leaves [convert_md_to_ipynb] and ends the run: the line of that
    candidate is the last thing printed, and children have been started
    and destinations opened for the candidates before it and for no
    other. *)
Theorem C7_open_failure_halts `{OS : Platform} (top : string) (t : node)
    (w : world) (pre : list (string * string)) (rf : string * string)
    (post : list (string * string)) :
  candidates top t = pre ++ rf :: post ->
  (forall c, c ∈ pre -> can_open (fs w) (dest_of c) = true) ->
  (forall c d, c ∈ pre -> is_Some (execvp (argv_of c) d)) ->
  can_open (fs w) (dest_of rf) = false ->
  exists w' evs,
    convert_md_to_ipynb top t w
    = (Raise (match fs w !! dest_of rf with
              | Some Directory => IsADirectoryError (dest_of rf)
              | _ => PermissionError (dest_of rf)
              end), w')
    /\ log w' = log w ++ evs
    /\ spawned evs = (fun c => ["notedown"; Path.join c.1 c.2]) <$> pre
    /\ opens evs = dest_of <$> pre
    /\ printed evs = line_of <$> (pre ++ [rf]).
Proof.
  intros Hl Hopen Hexec Hno. rewrite convert_walk, Hl.
  destruct (convert_all_halt pre rf post w) as (w' & Hrun & Hlog & _);
    try done.
  - rewrite <-Hl. apply candidates_are_candidates.
  - by apply Forall_forall.
  - exists w', (concat (block <$> pre) ++ [Print (line_of rf)]).
    split; [done|]. split; [done|].
    unfold spawned, opens, printed. rewrite !omap_app.
    fold (spawned (concat (block <$> pre))).
    fold (opens (concat (block <$> pre))).
    fold (printed (concat (block <$> pre))).
    rewrite spawned_blocks, opens_blocks, printed_blocks, fmap_app. simpl.
    by rewrite !List.app_nil_r.
Qed.

(** In the scenario tree with [./archive.tar.ipynb] write-protected,
    [notes.md] is converted, the run stops at [archive.tar.md], and
    [sub/dir/readme.md] is never reached. *)
Lemma C7_open_failure_halts_witness :
  candidates "." demo_tree
  = [(".", "notes.md")] ++ (".", "archive.tar.md")
       :: [("./sub/dir", "readme.md")]
  /\ can_open (OS := guarded_os) (fs (boot "." demo_tree))
       (dest_of (".", "notes.md")) = true
  /\ can_open (OS := guarded_os) (fs (boot "." demo_tree))
       (dest_of (".", "archive.tar.md")) = false
  /\ exists w' evs,
       convert_md_to_ipynb (OS := guarded_os) "." demo_tree
         (boot "." demo_tree)
       = (Raise (PermissionError "./archive.tar.ipynb"), w')
       /\ log w' = log (boot "." demo_tree) ++ evs
       /\ spawned evs = [["notedown"; "./notes.md"]]
       /\ opens evs = ["./notes.ipynb"]
       /\ printed evs
          = ["Converting: ./notes.md -> ./notes.ipynb";
             "Converting: ./archive.tar.md -> ./archive.tar.ipynb"].
Proof.
  split; [by vm_compute|]. split; [by vm_compute|]. split; [by vm_compute|].
  apply (C7_open_failure_halts (OS := guarded_os) "." demo_tree
           (boot "." demo_tree) [(".", "notes.md")] (".", "archive.tar.md")
           [("./sub/dir", "readme.md")]).
  - by vm_compute.
  - intros c ->%list_elem_of_singleton. by vm_compute.
  - intros c d ->%list_elem_of_singleton. by eexists.
  - by vm_compute.
Defined.

(** ** Coverage *)

Lemma file_at_valid (t : node) (dirs : list string) (name : string) :
  wf t = true -> file_at t dirs name -> valid_name name = true.
Proof.
  intros Hwf Hf.
  induction Hf as [es name data Hin|es d sub dirs name Hin Hf IH].
  - apply wf_Dir in Hwf as (Hnames & _). rewrite Forall_forall in Hnames.
    apply (Hnames _ Hin).
  - apply IH. apply wf_Dir in Hwf as (_ & _ & Hsub).
    rewrite Forall_forall in Hsub. apply (Hsub _ Hin).
Qed.


Lemma convert_all_files `{OS : Platform} (l : list (string * string)) :
  forall w w',
    Forall (fun rf => is_candidate rf = true) l ->
    convert_all l w = (Return tt, w') ->
    forall rf,
      rf ∈ l -> exists data, fs w' !! dest_of rf = Some (RegFile data).
Proof.
  induction l as [|c l IH]; intros w w' Hc Hrun rf Hin;
    [by apply elem_of_nil in Hin|].
  apply Forall_cons in Hc as [Hcc Hc].
  rewrite convert_all_cons in Hrun by done.
  destruct (convert_step c w) as [r1 w1] eqn:Hs.
  apply convert_step_inv in Hs
    as [(_ & -> & _)|[(_ & _ & -> & _)|(_ & ch & _ & -> & ->)]];
    try done.
  apply elem_of_cons in Hin as [->|Hin]; [|by apply (IH _ _ Hc Hrun)].
  destruct (convert_all_evolves _ _ _ _ Hc Hrun) as [Hev _].
  simpl in Hev. destruct (Hev (dest_of c)) as [Heq|[_ Hreg]]; [|done].
  rewrite Heq, lookup_insert_eq. by eexists.
Qed.




(** ** Traversal *)

Lemma NoDup_fmap_filter {A B} (f : A -> B) (P : A -> Prop)
    `{!forall x, Decision (P x)} (l : list A) :
  NoDup (f <$> l) -> NoDup (f <$> filter P l).
Proof.
  induction l as [|x l IH]; [done|].
  rewrite fmap_cons, NoDup_cons. intros [Hnin Hnd].
  rewrite filter_cons. destruct (decide (P x)); [|by apply IH].
  rewrite fmap_cons. apply NoDup_cons. split; [|by apply IH].
  intros [y [Hy [_ Hin]%list_elem_of_filter]]%list_elem_of_fmap.
  apply Hnin. apply list_elem_of_fmap. by exists y.
Qed.






(** ** Running twice *)

(** A destination never ends in [.md]. *)
Lemma ipynb_not_md (x : string) : Str.endswith (x +:+ ".ipynb") ".md" = false.
Proof.
  apply endswith_false. intros [pre Heq].
  pose proof (f_equal (fun s => Str.rfind s "b") Heq) as Hr.
  pose proof (f_equal Str.len Heq) as Hlen.
  cbv beta in Hr. rewrite !rfind_app in Hr. rewrite !len_app in Hlen.
  change (Str.rfind ".ipynb" "b") with 5 in Hr.
  change (Str.rfind ".md" "b") with (-1) in Hr.
  change (Str.len ".ipynb") with 6 in Hlen.
  change (Str.len ".md") with 3 in Hlen.
  change (0 <=? 5) with true in Hr. change (0 <=? -1) with false in Hr.
  cbv iota in Hr. pose proof (rfind_lt pre "b"). lia.
Qed.

Lemma app_split (a b c d : string) :
  a +:+ b = c +:+ d -> (String.length a <= String.length c)%nat ->
  exists m, c = a +:+ m /\ b = m +:+ d.
Proof.
  revert c. induction a as [|x a IH]; intros c Heq Hlen.
  - exists c. by rewrite !app_nil_l in *.
  - destruct c as [|y c]; [simpl in Hlen; lia|].
    rewrite !app_String in Heq. injection Heq as <- Heq.
    destruct (IH c Heq) as (m & -> & ->); [simpl in Hlen; lia|].
    by exists m.
Qed.

(** Whether a visited file is a candidate can be read off its path. *)
Lemma endswith_join (root name : string) :
  Str.contains name Path.sep = false ->
  Str.endswith (Path.join root name) ".md" = Str.endswith name ".md".
Proof.
  intros Hn. rewrite join_name by done.
  destruct (Str.endswith name ".md") eqn:E.
  - apply endswith_iff in E as [stem ->]. apply endswith_iff.
    exists (dir_prefix root +:+ stem). by rewrite app_assoc.
  - apply endswith_false. intros [pre Heq].
    apply endswith_false in E. apply E.
    destruct (app_split (dir_prefix root) name pre ".md" Heq)
      as (m & _ & ->); [|by exists m].
    pose proof (f_equal (fun s => Str.rfind s Path.sep) Heq) as Hr.
    cbv beta in Hr.
    rewrite rfind_sep_prefix in Hr by (done || apply dir_prefix_is_prefix).
    rewrite rfind_app in Hr.
    change (Str.rfind ".md" Path.sep) with (-1) in Hr.
    change (0 <=? -1) with false in Hr. cbv iota in Hr.
    pose proof (rfind_lt pre Path.sep). unfold Str.len in *. lia.
Qed.

Lemma visited_valid (top : string) (t : node) (rf : string * string) :
  wf t = true -> rf ∈ visited top t -> valid_name rf.2 = true.
Proof.
  intros Hwf Hin. destruct rf as [root name].
  apply visited_sound in Hin as (dirs & _ & Hf).
  by apply (file_at_valid t dirs).
Qed.

(** The source paths of the candidates are the paths of the disk that
    name a regular file and end in [.md]. *)
Lemma candidates_disk (top : string) (t : node) (p : string) :
  wf t = true -> top <> "" ->
  p ∈ md_path_of <$> candidates top t <->
  is_dir t = true
  /\ (exists data, disk top t !! p = Some (RegFile data))
  /\ Str.endswith p ".md" = true.
Proof.
  intros Hwf Htop. split.
  - intros (rf & -> & [Hc Hv]%list_elem_of_filter)%list_elem_of_fmap.
    destruct (proj1 (visited_disk top t (md_path_of rf) Hwf Htop))
      as [Hd Hreg];
      [by apply list_elem_of_fmap_2|].
    split; [done|]. split; [done|].
    unfold md_path_of. rewrite endswith_join; [done|].
    by apply valid_name_no_sep, (visited_valid top t).
  - intros (Hd & Hreg & Hmd).
    assert (p ∈ md_path_of <$> visited top t) as Hin
      by by apply visited_disk.
    apply list_elem_of_fmap in Hin as (rf & -> & Hv).
    apply list_elem_of_fmap_2, list_elem_of_filter. split; [|done].
    unfold md_path_of in Hmd. rewrite endswith_join in Hmd; [done|].
    by apply valid_name_no_sep, (visited_valid top t).
Qed.

Lemma convert_all_dom `{OS : Platform} (l : list (string * string)) :
  forall w,
    Forall (fun rf => is_candidate rf = true) l ->
    (forall rf, rf ∈ l -> is_Some (fs w !! dest_of rf)) ->
    dom (fs (convert_all l w).2) = dom (fs w).
Proof.
  induction l as [|c l IH]; intros w Hc Hex; [done|].
  apply Forall_cons in Hc as [Hcc Hc].
  rewrite convert_all_cons by done.
  assert (is_Some (fs w !! dest_of c)) as Hd by (apply Hex; by left).
  destruct (convert_step c w) as [r1 w1] eqn:Hs.
  apply convert_step_inv in Hs
    as [(_ & -> & ->)|[(_ & _ & -> & ->)|(_ & ch & _ & -> & ->)]]; simpl.
  - done.
  - by apply dom_insert_lookup_L.
  - rewrite IH; simpl; [by apply dom_insert_lookup_L|done|].
    intros rf Hin. destruct (decide (dest_of c = dest_of rf)) as [->|Hne].
    + rewrite lookup_insert_eq. by eexists.
    + rewrite lookup_insert_ne by done. apply Hex. by right.
Qed.

(** C8.  A second run, on the tree that is on the disk after a first run
    that returned, has the same set of destination paths as the first.
    Each of them names a regular file the first run left there, the
    second run adds no name to the disk, and [open] on a regular file
    that is there gives it back empty, without an exception. *)
Theorem C8_rerun_same_destinations `{OS : Platform} (top : string)
    (t1 t2 : node) (w1 : world) :
  wf t1 = true -> wf t2 = true ->
  convert_md_to_ipynb top t1 (boot top t1) = (Return tt, w1) ->
  disk top t2 = fs w1 ->
  (forall p, p ∈ dest_of <$> candidates top t2
             <-> p ∈ dest_of <$> candidates top t1)
  /\ (forall p, p ∈ dest_of <$> candidates top t2 ->
        exists data, fs w1 !! p = Some (RegFile data))
  /\ dom (fs (convert_md_to_ipynb top t2 w1).2) = dom (fs w1)
  /\ (forall path data w,
        fs w !! path = Some (RegFile data) -> denied path = false ->
        open_w path w
        = (Return path,
           World (<[path := RegFile []]> (fs w)) (path :: opened w)
                 (log w ++ [Open path]))).
Proof.
  intros Hwf1 Hwf2 Hrun Hdisk.
  assert (forall path data w,
            fs w !! path = Some (RegFile data) -> denied path = false ->
            open_w path w
            = (Return path,
               World (<[path := RegFile []]> (fs w)) (path :: opened w)
                     (log w ++ [Open path]))) as Hopen.
  { intros path data w Hp Hden. unfold open_w. by rewrite Hp, Hden. }
  destruct (decide (top = "")) as [->|Htop].
  { rewrite convert_walk. unfold candidates. rewrite !visited_empty.
    split; [done|]. split; [by intros p ?%elem_of_nil|]. done. }
  rewrite convert_walk in Hrun.
  pose proof (candidates_are_candidates top t1) as Hc1.
  destruct (convert_all_evolves _ _ _ _ Hc1 Hrun) as [Hev Hother].
  simpl in Hev, Hother.
  assert (is_dir t2 = is_dir t1) as Hdir.
  { pose proof (disk_top_dir top t1 Hwf1) as H1.
    pose proof (disk_top_dir top t2 Hwf2) as H2.
    rewrite Hdisk, (evolves_dir _ _ top Hev), H1 in H2.
    destruct (is_dir t1), (is_dir t2); intuition congruence. }
  assert (forall p, p ∈ md_path_of <$> candidates top t2
                    <-> p ∈ md_path_of <$> candidates top t1) as Hmd.
  { intros p. rewrite !candidates_disk, Hdir, Hdisk by done.
    split; intros (Hd & Hreg & Hp); (split; [done|]); (split; [|done]).
    - rewrite <-Hother; [done|]. intros rf _ ->.
      unfold dest_of, ipynb_of in Hp. by rewrite ipynb_not_md in Hp.
    - rewrite Hother; [done|]. intros rf _ ->.
      unfold dest_of, ipynb_of in Hp. by rewrite ipynb_not_md in Hp. }
  assert (forall p, p ∈ dest_of <$> candidates top t2
                    <-> p ∈ dest_of <$> candidates top t1) as Hdest.
  { intros p.
    assert (forall l : list (string * string),
              dest_of <$> l = ipynb_of <$> (md_path_of <$> l)) as Hcomp
      by (intros l; by rewrite <-list_fmap_compose).
    rewrite !Hcomp, !(list_elem_of_fmap ipynb_of).
    by setoid_rewrite Hmd. }
  assert (forall p, p ∈ dest_of <$> candidates top t2 ->
            exists data, fs w1 !! p = Some (RegFile data)) as Hthere.
  { intros p (rf & -> & Hrf)%Hdest%list_elem_of_fmap.
    by apply (convert_all_files _ _ _ Hc1 Hrun). }
  split; [done|]. split; [done|]. split.
  - rewrite convert_walk.
    apply convert_all_dom; [apply candidates_are_candidates|].
    intros rf Hrf. destruct (Hthere (dest_of rf)) as [data Hd].
    + by apply list_elem_of_fmap_2.
    + by rewrite Hd.
  - exact Hopen.
Qed.

(** Scenario A, run twice: the second run finds [notes.ipynb] next to
    [notes.md] and writes to it again. *)
Lemma C8_rerun_same_destinations_witness :
  wf notes_tree = true /\ wf notes_tree_after = true
  /\ exists w1,
       convert_md_to_ipynb (OS := plain_os) "." notes_tree
         (boot "." notes_tree) = (Return tt, w1)
       /\ disk "." notes_tree_after = fs w1
       /\ dest_of <$> candidates "." notes_tree_after = ["./notes.ipynb"]
       /\ dest_of <$> candidates "." notes_tree = ["./notes.ipynb"]
       /\ dom (fs (convert_md_to_ipynb (OS := plain_os) "."
                     notes_tree_after w1).2)
          = dom (fs w1).
Proof.
  split; [done|]. split; [done|].
  destruct (convert_md_to_ipynb (OS := plain_os) "." notes_tree
              (boot "." notes_tree)) as [r w1] eqn:Hrun.
  assert (r = Return tt) as ->.
  { apply (f_equal fst) in Hrun. vm_compute in Hrun. done. }
  assert (disk "." notes_tree_after = fs w1) as Hdisk.
  { apply (f_equal (fun x => fs x.2)) in Hrun. simpl in Hrun.
    rewrite <-Hrun. by vm_compute. }
  exists w1. split; [done|]. split; [exact Hdisk|].
  split; [done|]. split; [done|].
  destruct (C8_rerun_same_destinations (OS := plain_os) "." notes_tree
              notes_tree_after w1 eq_refl eq_refl Hrun Hdisk)
    as (_ & _ & Hdom & _).
  exact Hdom.
Defined.

(** * Further properties of the script *)

(** ** What a run leaves alone *)

Lemma dest_ends_ipynb (rf : string * string) :
  Str.endswith (dest_of rf) ".ipynb" = true.
Proof. unfold dest_of, ipynb_of. apply endswith_app. Qed.

(** X3.  Whatever way a run ends, every path it has opened ends in
    [.ipynb] and none of them in [.md]: the run opens no path that is
    named like a source.  It has removed no name from the disk, and what
    was a directory is one, and nothing else has become one. *)
Theorem X3_opens_notebooks_only `{OS : Platform} (top : string) (t : node)
    (w : world) :
  let w' := (convert_md_to_ipynb top t w).2 in
  (exists evs,
     log w' = log w ++ evs
     /\ forall p, p ∈ opens evs ->
          Str.endswith p ".ipynb" = true /\ Str.endswith p ".md" = false)
  /\ (forall root file,
        Str.endswith (ipynb_of (Path.join root file)) ".ipynb" = true
        /\ Str.endswith (ipynb_of (Path.join root file)) ".md" = false)
  /\ (forall p, is_Some (fs w !! p) -> is_Some (fs w' !! p))
  /\ (forall p, fs w' !! p = Some Directory <-> fs w !! p = Some Directory).
Proof.
  intros w'. subst w'.
  destruct (run_footprint top t w) as (evs & Hlog & _ & Hop & _).
  revert Hlog. cbv zeta. rewrite convert_walk.
  destruct (convert_all (candidates top t) w) as [r w'] eqn:Hrun. simpl.
  intros Hlog.
  destruct (convert_all_evolves _ _ _ _ (candidates_are_candidates top t) Hrun)
    as [Hev _].
  split; [|split; [|split]].
  - exists evs. split; [done|].
    intros p (rf & _ & ->)%Hop.
    split; [apply dest_ends_ipynb|apply ipynb_not_md].
  - intros root file. split; [apply endswith_app|apply ipynb_not_md].
  - intros p Hp. destruct (Hev p) as [->|[_ [data ->]]]; [done|by eexists].
  - intros p. by apply evolves_dir.
Qed.

(** ** Nothing to convert *)

(** X1.  When no file the walk visits has a name ending in [.md], the
    function returns and the world is what it was: nothing is printed,
    opened or started.  That is so for a folder path that names a regular
    file, on which the walk yields nothing. *)
Theorem X1_nothing_to_convert `{OS : Platform} (top : string) (t : node)
    (w : world) :
  (forall root file,
     (root, file) ∈ visited top t -> Str.endswith file ".md" = false) ->
  convert_md_to_ipynb top t w = (Return tt, w)
  /\ (forall data w0,
        convert_md_to_ipynb top (File data) w0 = (Return tt, w0)).
Proof.
  intros Hnone. split; [|done].
  rewrite convert_visited. revert Hnone.
  induction (visited top t) as [|[root file] l IH]; intros Hnone; [done|].
  rewrite for_each_cons. simpl.
  rewrite convert_file_skip by (apply (Hnone root); by left).
  apply IH. intros root' file' Hin. apply (Hnone root'). by right.
Qed.

Lemma X1_nothing_to_convert_witness :
  (forall root file,
     (root, file) ∈ visited "." image_tree ->
     Str.endswith file ".md" = false)
  /\ convert_md_to_ipynb (OS := plain_os) "." image_tree
       (boot "." image_tree)
     = (Return tt, boot "." image_tree).
Proof.
  assert (forall root file,
            (root, file) ∈ visited "." image_tree ->
            Str.endswith file ".md" = false) as Hnone.
  { intros root file Hin. vm_compute in Hin.
    apply list_elem_of_singleton in Hin as [= -> ->]. done. }
  split; [exact Hnone|].
  exact (proj1 (X1_nothing_to_convert (OS := plain_os) "." image_tree
                  (boot "." image_tree) Hnone)).
Defined.

(** ** A converter that cannot be started *)




(** ** What a run that returns has done *)

Lemma convert_all_children `{OS : Platform} (l : list (string * string)) :
  forall w w',
    Forall (fun rf => is_candidate rf = true) l ->
    convert_all l w = (Return tt, w') ->
    forall rf,
      rf ∈ l ->
      exists d c,
        (forall p, Str.endswith p ".ipynb" = false -> d !! p = fs w !! p)
        /\ d !! dest_of rf = Some (RegFile [])
        /\ execvp (argv_of rf) d = Some c
        /\ (NoDup (dest_of <$> l) ->
            fs w' !! dest_of rf = Some (RegFile (child_stdout c))).
Proof.
  induction l as [|c0 l IH]; intros w w' Hc Hrun rf Hin;
    [by apply elem_of_nil in Hin|].
  apply Forall_cons in Hc as [Hcc Hc].
  rewrite convert_all_cons in Hrun by done.
  destruct (convert_step c0 w) as [r1 w1] eqn:Hs.
  apply convert_step_inv in Hs
    as [(_ & -> & _)|[(_ & _ & -> & _)|(_ & ch & Hx & -> & ->)]];
    try done.
  assert (forall p x, Str.endswith p ".ipynb" = false ->
            <[dest_of c0 := RegFile x]> (fs w) !! p = fs w !! p) as Hkeep.
  { intros p x Hp. apply lookup_insert_ne. intros <-.
    by rewrite dest_ends_ipynb in Hp. }
  apply elem_of_cons in Hin as [->|Hin].
  - exists (<[dest_of c0 := RegFile []]> (fs w)), ch.
    split; [intros p; apply Hkeep|]. split; [apply lookup_insert_eq|].
    split; [done|].
    rewrite fmap_cons. intros [Hnin _]%NoDup_cons.
    destruct (convert_all_evolves _ _ _ _ Hc Hrun) as [_ Hother].
    rewrite Hother; [apply lookup_insert_eq|].
    intros rf' Hrf' Heq. apply Hnin. rewrite Heq.
    by apply list_elem_of_fmap_2.
  - destruct (IH _ _ Hc Hrun rf Hin) as (d & c & Hd & Hempty & Hexec & Hfinal).
    exists d, c. split.
    { intros p Hp. rewrite Hd by done. simpl. by apply Hkeep. }
    split; [done|]. split; [done|].
    rewrite fmap_cons. intros [_ Hnd]%NoDup_cons. by apply Hfinal.
Qed.

(** X6.  A run returns only if the destination of every candidate could
    be opened, being neither a directory nor refused when the run
    started, and a child could be started for every candidate. *)
Theorem X6_return_means_all_converted `{OS : Platform} (top : string)
    (t : node) (w w' : world) (root file : string) :
  convert_md_to_ipynb top t w = (Return tt, w') ->
  (root, file) ∈ visited top t ->
  Str.endswith file ".md" = true ->
  fs w !! ipynb_of (Path.join root file) <> Some Directory
  /\ denied (ipynb_of (Path.join root file)) = false
  /\ exists d c, execvp ["notedown"; Path.join root file] d = Some c.
Proof.
  intros Hrun Hv Hmd. rewrite convert_walk in Hrun.
  pose proof (candidates_are_candidates top t) as Hc.
  assert ((root, file) ∈ candidates top t) as Hin
    by by apply list_elem_of_filter.
  destruct (convert_all_return _ _ _ Hc Hrun) as [_ Hopen].
  rewrite Forall_forall in Hopen. specialize (Hopen _ Hin).
  destruct (convert_all_children _ _ _ Hc Hrun _ Hin)
    as (d & c & _ & _ & Hexec & _).
  split; [by apply (can_open_not_dir _ _ Hopen)|]. split; [|by exists d, c].
  unfold can_open, dest_of, md_path_of in Hopen. simpl in Hopen.
  destruct (fs w !! ipynb_of (Path.join root file)) as [[|]|];
    try done; by apply negb_true_iff in Hopen.
Qed.

Lemma X6_return_means_all_converted_witness :
  (".", "notes.md") ∈ visited "." demo_tree
  /\ Str.endswith "notes.md" ".md" = true
  /\ exists w',
       convert_md_to_ipynb (OS := plain_os) "." demo_tree
         (boot "." demo_tree) = (Return tt, w')
       /\ fs (boot "." demo_tree) !! "./notes.ipynb" <> Some Directory
       /\ denied (Platform := plain_os) "./notes.ipynb" = false.
Proof.
  assert ((".", "notes.md") ∈ visited "." demo_tree) as Hv
    by (vm_compute; right; by left).
  split; [exact Hv|]. split; [done|].
  destruct (convert_md_to_ipynb (OS := plain_os) "." demo_tree
              (boot "." demo_tree)) as [r w'] eqn:Hrun.
  assert (r = Return tt) as ->.
  { apply (f_equal fst) in Hrun. vm_compute in Hrun. done. }
  exists w'. split; [done|].
  destruct (X6_return_means_all_converted (OS := plain_os) "." demo_tree
              (boot "." demo_tree) w' "." "notes.md" Hrun Hv eq_refl)
    as (Hd & Hden & _).
  split; [exact Hd|exact Hden].
Defined.

(** ** When destinations coincide *)

Lemma all_dots_no_sep (s : string) :
  all_dots s = true -> Str.contains s Path.sep = false.
Proof.
  induction s as [|a s IH]; [done|]. simpl.
  intros [Ha Hs]%andb_prop. apply Ascii.eqb_eq in Ha as ->.
  by rewrite (IH Hs).
Qed.

Lemma app_inv_r (s t u : string) : s +:+ u = t +:+ u -> s = t.
Proof.
  intros Heq. pose proof (f_equal String.length Heq) as Hlen.
  rewrite !length_app in Hlen.
  destruct (app_split s u t u Heq) as (m & -> & Hu); [lia|].
  rewrite length_app in Hlen. destruct m; [by rewrite app_nil_r|].
  simpl in Hlen. lia.
Qed.

Lemma NoDup_fmap_inj_on {A B} (f : A -> B) (l : list A) (x y : A) :
  NoDup (f <$> l) -> x ∈ l -> y ∈ l -> f x = f y -> x = y.
Proof.
  induction l as [|a l IH]; [by intros _ ?%elem_of_nil|].
  rewrite fmap_cons, NoDup_cons. intros [Hnin Hnd].
  rewrite !elem_of_cons. intros [->|Hx] [->|Hy] Heq.
  - done.
  - destruct Hnin. rewrite Heq. by apply list_elem_of_fmap_2.
  - destruct Hnin. rewrite <-Heq. by apply list_elem_of_fmap_2.
  - by apply IH.
Qed.

(** X5.  Two candidates of one directory can have one destination: for a
    name made of dots and [.md], such as [.md], the destination is the name
    with [.ipynb] added, in the same directory, and that is also the
    destination of the name with a second [.md] added, such as [.md.md].
    Their source paths differ.  When the loop body has returned on one
    file and returns on another with the same destination, the
    destination holds the standard output of the second child, which was
    started on a disk where the destination was empty: the later
    conversion overwrites the earlier. *)
Theorem X5_shared_destination `{OS : Platform} (root dots : string) :
  all_dots dots = true ->
  is_candidate (root, dots +:+ ".md") = true
  /\ is_candidate (root, (dots +:+ ".md") +:+ ".md") = true
  /\ Path.join root (dots +:+ ".md")
     <> Path.join root ((dots +:+ ".md") +:+ ".md")
  /\ ipynb_of (Path.join root (dots +:+ ".md"))
     = Path.join root ((dots +:+ ".md") +:+ ".ipynb")
  /\ ipynb_of (Path.join root ((dots +:+ ".md") +:+ ".md"))
     = Path.join root ((dots +:+ ".md") +:+ ".ipynb")
  /\ (forall file1 file2 w w1 w2,
        Str.endswith file1 ".md" = true ->
        Str.endswith file2 ".md" = true ->
        ipynb_of (Path.join root file1) = ipynb_of (Path.join root file2) ->
        convert_file root file1 w = (Return tt, w1) ->
        convert_file root file2 w1 = (Return tt, w2) ->
        exists c1 c2,
          execvp ["notedown"; Path.join root file1]
                 (<[ipynb_of (Path.join root file1) := RegFile []]> (fs w))
          = Some c1
          /\ fs w1 !! ipynb_of (Path.join root file1)
             = Some (RegFile (child_stdout c1))
          /\ execvp ["notedown"; Path.join root file2]
                    (<[ipynb_of (Path.join root file1) := RegFile []]>
                       (fs w1))
             = Some c2
          /\ fs w2 !! ipynb_of (Path.join root file1)
             = Some (RegFile (child_stdout c2))).
Proof.
  intros Hdots. pose proof (all_dots_no_sep _ Hdots) as Hsep.
  assert (Str.contains (dots +:+ ".md") Path.sep = false) as Hsep'
    by by rewrite contains_app, Hsep.
  pose proof (dest_of_md root dots Hsep) as H1.
  pose proof (dest_of_md root (dots +:+ ".md") Hsep') as H2.
  rewrite Hdots in H1. rewrite all_dots_app, andb_false_r in H2.
  unfold dest_of, md_path_of in H1, H2. simpl in H1, H2.
  assert (Path.join root ((dots +:+ ".md") +:+ ".ipynb")
          = dir_prefix root +:+ (dots +:+ ".md") +:+ ".ipynb") as Hj
    by (by rewrite join_name by (by rewrite contains_app, Hsep')).
  split; [apply endswith_app|]. split; [apply endswith_app|].
  split; [|split; [by rewrite H1, Hj, !app_assoc|split; [by rewrite H2, Hj|]]].
  - rewrite !join_name by (done || by rewrite contains_app, Hsep').
    intros Heq%app_inv_l. apply (f_equal String.length) in Heq.
    rewrite !length_app in Heq. simpl in Heq. lia.
  - intros file1 file2 w w1 w2 Hc1 Hc2 Hd Hr1 Hr2.
    destruct (convert_file_done root file1 w Hc1) as [_ Hdone1].
    destruct (convert_file_done root file2 w1 Hc2) as [_ Hdone2].
    rewrite Hr1 in Hdone1. rewrite Hr2 in Hdone2. simpl in Hdone1, Hdone2.
    destruct (Hdone1 eq_refl) as (c1 & Hx1 & Hfs1 & _).
    destruct (Hdone2 eq_refl) as (c2 & Hx2 & Hfs2 & _).
    rewrite <-Hd in Hx2, Hfs2.
    exists c1, c2. split; [done|]. split; [|split; [done|]].
    + rewrite Hfs1. apply lookup_insert_eq.
    + rewrite Hfs2. apply lookup_insert_eq.
Qed.

(** With the converter that writes the path it is given: the loop body
    on [.md] and then on [.md.md] leaves in their one destination the
    output for [.md.md], and so does the run on a directory that holds the
    two. *)
Lemma X5_shared_destination_witness :
  all_dots "" = true
  /\ ipynb_of (Path.join "." ".md") = "./.md.ipynb"
  /\ ipynb_of (Path.join "." ".md.md") = "./.md.ipynb"
  /\ (exists w1 w2,
        convert_file (OS := echo_os) "." ".md" (boot "." twins_tree)
        = (Return tt, w1)
        /\ convert_file (OS := echo_os) "." ".md.md" w1 = (Return tt, w2)
        /\ fs w1 !! "./.md.ipynb"
           = Some (RegFile (String.list_byte_of_string "./.md"))
        /\ fs w2 !! "./.md.ipynb"
           = Some (RegFile (String.list_byte_of_string "./.md.md")))
  /\ fs (main (OS := echo_os) twins_tree (boot "." twins_tree)).2
       !! "./.md.ipynb"
     = Some (RegFile (String.list_byte_of_string "./.md.md")).
Proof.
  split; [done|].
  destruct (X5_shared_destination (OS := echo_os) "." "" eq_refl)
    as (_ & _ & _ & Hd1 & Hd2 & Hover).
  split; [by vm_compute|]. split; [by vm_compute|]. split; [|by vm_compute].
  pose (w1 := (convert_file (OS := echo_os) "." ".md"
                 (boot "." twins_tree)).2).
  pose (w2 := (convert_file (OS := echo_os) "." ".md.md" w1).2).
  assert (convert_file (OS := echo_os) "." ".md" (boot "." twins_tree)
          = (Return tt, w1)) as Hr1 by by vm_compute.
  assert (convert_file (OS := echo_os) "." ".md.md" w1 = (Return tt, w2))
    as Hr2 by by vm_compute.
  exists w1, w2. split; [done|]. split; [done|].
  destruct (Hover ".md" ".md.md" _ w1 w2 eq_refl eq_refl eq_refl Hr1 Hr2)
    as (c1 & c2 & Hx1 & Hf1 & Hx2 & Hf2).
  injection Hx1 as <-. injection Hx2 as <-.
  split; [exact Hf1|exact Hf2].
Defined.

(** X8.  In a well-formed tree in which every candidate has a character
    other than [.] before its final [.md], no two candidates have the
    same destination. *)
Theorem X8_distinct_destinations (top : string) (t : node) :
  wf t = true ->
  (forall root file,
     (root, file) ∈ candidates top t ->
     exists stem, file = stem +:+ ".md" /\ all_dots stem = false) ->
  NoDup ((fun c => ipynb_of (Path.join c.1 c.2)) <$> candidates top t).
Proof.
  intros Hwf Hord.
  assert (NoDup (md_path_of <$> candidates top t)) as Hnd
    by by apply NoDup_fmap_filter, visited_NoDup.
  apply NoDup_fmap_2_strong; [|by apply NoDup_fmap_1 in Hnd].
  intros [r1 f1] [r2 f2] H1 H2 Heq.
  apply (NoDup_fmap_inj_on md_path_of (candidates top t)); try done.
  destruct (Hord _ _ H1) as (s1 & -> & Hd1).
  destruct (Hord _ _ H2) as (s2 & -> & Hd2).
  assert (forall r s, (r, s +:+ ".md") ∈ candidates top t ->
            Str.contains s Path.sep = false) as Hsep.
  { intros r s [_ Hin]%list_elem_of_filter.
    apply (visited_valid top t _ Hwf), valid_name_no_sep in Hin.
    simpl in Hin. rewrite contains_app in Hin.
    by apply orb_false_elim in Hin as [? _]. }
  pose proof (dest_of_md r1 s1 (Hsep _ _ H1)) as E1.
  pose proof (dest_of_md r2 s2 (Hsep _ _ H2)) as E2.
  rewrite Hd1 in E1. rewrite Hd2 in E2.
  unfold dest_of, md_path_of in E1, E2. simpl in Heq, E1, E2.
  rewrite E1, E2, <-!app_assoc in Heq. apply app_inv_r in Heq.
  unfold md_path_of. simpl.
  rewrite !join_name by (by rewrite contains_app, (Hsep _ _ H1)
                         || by rewrite contains_app, (Hsep _ _ H2)).
  by rewrite <-!app_assoc, Heq.
Qed.

Lemma X8_distinct_destinations_witness :
  wf demo_tree = true
  /\ (forall root file,
        (root, file) ∈ candidates "." demo_tree ->
        exists stem, file = stem +:+ ".md" /\ all_dots stem = false)
  /\ (fun c => ipynb_of (Path.join c.1 c.2)) <$> candidates "." demo_tree
     = ["./notes.ipynb"; "./archive.tar.ipynb"; "./sub/dir/readme.ipynb"]
  /\ NoDup ((fun c => ipynb_of (Path.join c.1 c.2))
            <$> candidates "." demo_tree).
Proof.
  assert (forall root file,
            (root, file) ∈ candidates "." demo_tree ->
            exists stem, file = stem +:+ ".md" /\ all_dots stem = false)
    as Hord.
  { intros root file Hin. vm_compute in Hin.
    apply elem_of_cons in Hin as [[= -> ->]|Hin]; [by exists "notes"|].
    apply elem_of_cons in Hin as [[= -> ->]|Hin]; [by exists "archive.tar"|].
    apply list_elem_of_singleton in Hin as [= -> ->]. by exists "readme". }
  split; [done|]. split; [exact Hord|]. split; [by vm_compute|].
  exact (X8_distinct_destinations "." demo_tree eq_refl Hord).
Defined.

(** ** Where the paths lie *)

Lemma file_at_dirs_valid (t : node) (dirs : list string) (name : string) :
  wf t = true -> file_at t dirs name ->
  Forall (fun d => valid_name d = true) dirs.
Proof.
  intros Hwf Hf.
  induction Hf as [es name data Hin|es d sub dirs name Hin Hf IH];
    [constructor|].
  apply wf_Dir in Hwf as (Hnames & _ & Hsub).
  rewrite Forall_forall in Hnames, Hsub. constructor.
  - apply (Hnames _ Hin).
  - apply IH, (Hsub _ Hin).
Qed.

Lemma dir_prefix_join (a n : string) :
  valid_name n = true ->
  dir_prefix (Path.join a n) = dir_prefix a +:+ n +:+ "/".
Proof.
  intros Hv. rewrite join_name by by apply valid_name_no_sep.
  rewrite dir_prefix_clean by by apply clean_name.
  apply app_assoc.
Qed.

Lemma dir_prefix_dir_path (dirs : list string) :
  forall top,
    Forall (fun d => valid_name d = true) dirs ->
    exists rest, dir_prefix (dir_path top dirs) = dir_prefix top +:+ rest.
Proof.
  induction dirs as [|d dirs IH]; intros top Hv.
  - exists "". by rewrite app_nil_r.
  - apply Forall_cons in Hv as [Hd Hv].
    destruct (IH (Path.join top d) Hv) as [rest Hrest].
    exists (d +:+ "/" +:+ rest).
    change (dir_path top (d :: dirs)) with (dir_path (Path.join top d) dirs).
    rewrite Hrest, dir_prefix_join by done.
    by rewrite !app_assoc.
Qed.

(** X7.  In a well-formed tree, every path a run opens and every path it
    hands to the converter begins with the folder path, followed by a
    separator unless the folder path is empty or ends with one; for the
    call [convert_md_to_ipynb(".")] of the module, with [./]. *)
Theorem X7_paths_under_folder `{OS : Platform} (top : string) (t : node)
    (w : world) :
  wf t = true ->
  let w' := (convert_md_to_ipynb top t w).2 in
  exists evs,
    log w' = log w ++ evs
    /\ (forall p, p ∈ opens evs -> exists rest, p = dir_prefix top +:+ rest)
    /\ (forall argv,
          argv ∈ spawned evs ->
          exists rest, argv = ["notedown"; dir_prefix top +:+ rest])
    /\ dir_prefix "." = "./".
Proof.
  intros Hwf w'.
  destruct (run_footprint top t w) as (evs & Hlog & Hsp & Hop & _).
  exists evs. split; [done|].
  assert (forall rf, rf ∈ candidates top t ->
            exists stem rest,
              rf.2 = stem +:+ ".md"
              /\ Str.contains stem Path.sep = false
              /\ dir_prefix rf.1 = dir_prefix top +:+ rest) as Hshape.
  { intros [root file] [Hc Hv]%list_elem_of_filter.
    unfold is_candidate in Hc. simpl in Hc.
    apply endswith_iff in Hc as [stem ->].
    apply visited_sound in Hv as (dirs & -> & Hf).
    pose proof (file_at_valid _ _ _ Hwf Hf) as Hn%valid_name_no_sep.
    rewrite contains_app in Hn. apply orb_false_elim in Hn as [Hstem _].
    destruct (dir_prefix_dir_path dirs top) as [rest Hrest];
      [by apply (file_at_dirs_valid t dirs (stem +:+ ".md"))|].
    by exists stem, rest. }
  split; [|split; [|done]].
  - intros p (rf & Hrf & ->)%Hop.
    destruct (Hshape _ Hrf) as (stem & rest & Hfile & Hstem & Hpre).
    destruct rf as [root file]. simpl in Hfile, Hpre. subst file.
    rewrite dest_of_md, Hpre by done.
    destruct (all_dots stem); eexists; by rewrite !app_assoc.
  - intros argv (rf & Hrf & ->)%Hsp.
    destruct (Hshape _ Hrf) as (stem & rest & Hfile & Hstem & Hpre).
    destruct rf as [root file]. simpl in Hfile, Hpre. subst file.
    unfold argv_of, md_path_of. simpl.
    rewrite join_name by (by rewrite contains_app, Hstem).
    rewrite Hpre. eexists. by rewrite !app_assoc.
Qed.

Lemma X7_paths_under_folder_witness :
  wf demo_tree = true
  /\ exists evs,
       log (main (OS := plain_os) demo_tree (boot "." demo_tree)).2
       = log (boot "." demo_tree) ++ evs
       /\ (forall p, p ∈ opens evs -> exists rest, p = "./" +:+ rest).
Proof.
  split; [done|].
  destruct (X7_paths_under_folder (OS := plain_os) "." demo_tree
              (boot "." demo_tree) eq_refl) as (evs & Hlog & Hop & _).
  exists evs. split; [exact Hlog|exact Hop].
Defined.

(** ** The split of a path *)

Lemma rfind_negative (s : string) (c : ascii) :
  Str.rfind s c < 0 -> Str.contains s c = false.
Proof.
  induction s as [|a s IH]; [done|]. simpl.
  destruct (0 <=? Str.rfind s c) eqn:E.
  - apply Z.leb_le in E. lia.
  - apply Z.leb_gt in E. destruct (Ascii.eqb a c); [lia|].
    intros _. by rewrite IH.
Qed.

(** The index [rfind] returns splits the string at the last occurrence
    of the character. *)
Lemma rfind_split (s : string) (c : ascii) :
  0 <= Str.rfind s c ->
  exists a b,
    s = a +:+ String c b /\ Str.len a = Str.rfind s c
    /\ Str.contains b c = false.
Proof.
  induction s as [|x s IH]; [simpl; lia|]. simpl.
  destruct (0 <=? Str.rfind s c) eqn:E.
  - apply Z.leb_le in E. intros _.
    destruct (IH E) as (a & b & -> & Hlen & Hb).
    exists (String x a), b. split; [done|]. split; [|done].
    unfold Str.len in *. simpl. lia.
  - apply Z.leb_gt in E. destruct (Ascii.eqb_spec x c) as [->|]; [|lia].
    intros _. exists "", s. split; [done|]. split; [done|].
    by apply rfind_negative.
Qed.

Lemma slice_split (p : string) (i : Z) :
  0 <= i <= Str.len p -> Str.slice_to p i +:+ Str.slice_from p i = p.
Proof.
  intros Hi. unfold Str.slice_to, Str.slice_from.
  pose proof (len_nonneg p).
  rewrite !slice_substring by lia.
  rewrite Z.sub_0_r. simpl Z.to_nat.
  replace (Z.to_nat (Str.len p - i))
    with (String.length p - Z.to_nat i)%nat by (unfold Str.len; lia).
  symmetry. apply substring_split. unfold Str.len in *. lia.
Qed.

(** X10.  Whatever the source path is, [os.path.splitext] cuts it in two
    parts that give the path back when put together, and the second part
    is empty or a dot followed by characters that are neither a dot nor a
    separator.  So the destination is always the source path without such
    an ending, with [.ipynb] added: it never leaves the directory of the
    source. *)
Theorem X10_split_keeps_directory (md_path : string) :
  (Path.splitext md_path).1 +:+ (Path.splitext md_path).2 = md_path
  /\ ((Path.splitext md_path).2 = ""
      \/ exists e,
           (Path.splitext md_path).2 = String Path.extsep e
           /\ Str.contains e Path.extsep = false
           /\ Str.contains e Path.sep = false)
  /\ ipynb_of md_path = (Path.splitext md_path).1 +:+ ".ipynb".
Proof.
  split; [|split; [|done]].
  - unfold Path.splitext, Path._splitext.
    destruct (Str.rfind md_path Path.sep <? Str.rfind md_path Path.extsep)
      eqn:E; simpl; [|by rewrite slice_to_0, app_nil_r].
    destruct (Path.skip_dots _ _ _ _); simpl;
      [|by rewrite slice_to_0, app_nil_r].
    apply Z.ltb_lt in E. pose proof (rfind_ge md_path Path.sep).
    pose proof (rfind_lt md_path Path.extsep).
    apply slice_split. lia.
  - unfold Path.splitext, Path._splitext.
    destruct (Str.rfind md_path Path.sep <? Str.rfind md_path Path.extsep)
      eqn:E; simpl; [|left; apply slice_to_0].
    destruct (Path.skip_dots _ _ _ _); simpl; [|left; apply slice_to_0].
    right. apply Z.ltb_lt in E. pose proof (rfind_ge md_path Path.sep) as Hs.
    destruct (rfind_split md_path Path.extsep) as (a & b & Hp & Hlen & Hb);
      [lia|].
    rewrite <-Hlen in E. rewrite Hp in E. rewrite rfind_app in E.
    exists b. rewrite <-Hlen. rewrite Hp at 1.
    split; [apply slice_from_app|]. split; [done|].
    destruct (0 <=? Str.rfind (String Path.extsep b) Path.sep) eqn:E'.
    + apply Z.leb_le in E'. lia.
    + apply Z.leb_gt in E'. apply rfind_negative in E'.
      simpl in E'. done.
Qed.
